(** * LLJITWithObjectLinkingLayerPlugin: the plugin and its link-graph dump

  A shallow embedding of [MyPlugin] from
  llvm/examples/OrcV2Examples/LLJITWithObjectLinkingLayerPlugin, and the
  properties of its link-graph renderer [printLinkGraph] and of its
  pass-configuration hook [modifyPassConfig].

  Addresses are [JITTargetAddress] values, unsigned 64-bit integers: they
  are modelled as [Z] with the wrap-around written out.  The diagnostic
  stream [dbgs()] is a piece of state that is only ever appended to; a
  read past the end of a block's content buffer is a fault. *)

From Stdlib Require Import ZArith List String Ascii Bool Lia.
From Stdlib Require Import Init.Byte.
Import ListNotations.
Local Open Scope Z_scope.

(** [lia] reasons about division and remainder by constants. *)
Ltac Zify.zify_post_hook ::= Z.to_euclidean_division_equations.

(** ** Unsigned 64-bit arithmetic *)

Module U64.

Definition modulus : Z := 18446744073709551616.

Definition wrap (z : Z) : Z := z mod modulus.

Definition fits (z : Z) : Prop := 0 <= z < modulus.

(** [~x] on a 64-bit unsigned value. *)
Definition not (z : Z) : Z := wrap (Z.lnot z).

End U64.

(** ** The part of JITLink the plugin reads *)

Module JITLink.

(** A block: [getAddress], [getSize], [isZeroFill] and, for a content
    block, the bytes behind [getContent().data()]. *)
Record Block : Type := mkBlock {
  getAddress : Z;
  getSize : Z;
  isZeroFill : bool;
  getContent : list byte
}.

Record Section : Type := mkSection {
  getName : string;
  blocks : list Block
}.

Record LinkGraph : Type := mkLinkGraph {
  sections : list Section
}.

(** The fields hold values of their C++ types. *)
Definition valid_block (B : Block) : Prop :=
  U64.fits (getAddress B) /\ U64.fits (getSize B).

(** The data-model invariant of a content block: the buffer holds
    exactly [getSize] bytes. *)
Definition content_sized (B : Block) : Prop :=
  Z.of_nat (List.length (getContent B)) = getSize B.

(** The end of the block's address range is itself a 64-bit address:
    [getAddress + getSize] does not overflow. *)
Definition no_wrap (B : Block) : Prop :=
  getAddress B + getSize B < U64.modulus.

End JITLink.

Import JITLink.

(** ** The diagnostic stream *)

Module Dbgs.

(** What one statement of [printLinkGraph] writes to [dbgs()]. *)
Inductive chunk : Type :=
| TitleLine (Title : string)
| SectionLine (name : string)
| BlockLine (addr : Z)
| LineHeader (addr : Z)
| Blank
| ByteCell (b : byte)
| LineBreak.

Definition stream : Type := list chunk.

Definition nl : string := String (ascii_of_nat 10) EmptyString.

Definition hex_digit (n : Z) : ascii :=
  nth (Z.to_nat n)
      ["0"; "1"; "2"; "3"; "4"; "5"; "6"; "7";
       "8"; "9"; "a"; "b"; "c"; "d"; "e"; "f"]%char "?"%char.

(** The [width] low hexadecimal digits of [v], most significant first. *)
Fixpoint hex_digits (width : nat) (v : Z) : string :=
  match width with
  | O => EmptyString
  | S w => hex_digits w (v / 16) ++ String (hex_digit (v mod 16)) EmptyString
  end.

(** Modelled from the spec: [formatv] is LLVM support code outside src/.
    The spec only says that the address is written; the style ["{0:x16}"]
    is taken as the prefix [0x] and sixteen lower-case digits.  No
    property below depends on the digits of an address. *)
Definition format_x16 (a : Z) : string := "0x" ++ hex_digits 16 a.

(** Modelled from the spec: [formatv] is LLVM support code outside src/.
    ["{0:x-2}"] on a [uint8_t]: "the byte's value as two hex digits,
    most-significant-nibble first", without prefix. *)
Definition format_x2 (b : byte) : string :=
  hex_digits 2 (Z.of_N (Byte.to_N b)).

(** The characters a chunk puts on the stream. *)
Definition show (c : chunk) : string :=
  match c with
  | TitleLine Title => "--- " ++ Title ++ "---" ++ nl
  | SectionLine name => "  section: " ++ name ++ nl
  | BlockLine addr => "    block@" ++ format_x16 addr ++ ":" ++ nl
  | LineHeader addr => "    " ++ format_x16 addr ++ ": "
  | Blank => "   "
  | ByteCell b => format_x2 b ++ " "
  | LineBreak => nl
  end.

Fixpoint text (s : stream) : string :=
  match s with
  | [] => EmptyString
  | c :: s' => show c ++ text s'
  end.

(** Classifiers, for counting what a dump holds. *)
Definition is_byte_cell (c : chunk) : bool :=
  match c with ByteCell _ => true | _ => false end.

Definition is_blank (c : chunk) : bool :=
  match c with Blank => true | _ => false end.

Definition is_cell (c : chunk) : bool := is_byte_cell c || is_blank c.

Definition is_header (c : chunk) : bool :=
  match c with LineHeader _ => true | _ => false end.

Definition is_break (c : chunk) : bool :=
  match c with LineBreak => true | _ => false end.

Definition count (p : chunk -> bool) (s : stream) : nat :=
  List.length (filter p s).

(** The last character written, if any. *)
Fixpoint last_char (s : string) : option ascii :=
  match s with
  | EmptyString => None
  | String a EmptyString => Some a
  | String _ s' => last_char s'
  end.

Definition ends_line (s : stream) : Prop :=
  last_char (text s) = Some (ascii_of_nat 10).

End Dbgs.

Import Dbgs.

(** ** Computations that write to the stream and may fault *)

Module Run.

(** The one contract violation the renderer can commit. *)
Inductive fault : Type :=
| OutOfBounds (index : Z) (size : nat).

Inductive outcome (A : Type) : Type :=
| Done (a : A)
| Fault (f : fault)
| OutOfFuel.

Arguments Done {A} a.
Arguments Fault {A} f.
Arguments OutOfFuel {A}.

Definition M (A : Type) : Type := stream -> outcome (A * stream).

Definition ret {A} (a : A) : M A := fun s => Done (a, s).

Definition bind {A B} (m : M A) (k : A -> M B) : M B :=
  fun s =>
    match m s with
    | Done (a, s') => k a s'
    | Fault f => Fault f
    | OutOfFuel => OutOfFuel
    end.

(** [dbgs() << c] *)
Definition emit (c : chunk) : M unit := fun s => Done (tt, s ++ [c]).

(** [Data[i]] on a buffer of [length Data] bytes. *)
Definition read (Data : list byte) (i : Z) : M byte :=
  fun s =>
    match nth_error Data (Z.to_nat i) with
    | Some b => Done (b, s)
    | None => Fault (OutOfBounds i (List.length Data))
    end.

Definition out_of_fuel {A} : M A := fun _ => OutOfFuel.

Definition when (c : bool) (m : M unit) : M unit :=
  if c then m else ret tt.

(** A range-based [for] over a container. *)
Fixpoint for_each {A} (l : list A) (body : A -> M unit) : M unit :=
  match l with
  | [] => ret tt
  | x :: l' => bind (body x) (fun _ => for_each l' body)
  end.

(** What a computation appends when started on the empty stream, moved
    behind an earlier stream [s]. *)
Definition after {A} (s : stream) (r : outcome (A * stream))
  : outcome (A * stream) :=
  match r with
  | Done (a, o) => Done (a, s ++ o)
  | Fault f => Fault f
  | OutOfFuel => OutOfFuel
  end.

End Run.

Import Run.

Notation "x <- m ;; k" := (bind m (fun x => k))
  (at level 61, m at next level, right associativity).
Notation "m ;; k" := (bind m (fun _ => k))
  (at level 61, right associativity).

(** ** The plugin interface of the object linking layer *)

Module Orc.

(** [llvm::Error]: success, or a failure with its message. *)
Inductive Error : Type :=
| success
| failure (msg : string).

(** A JITLink pass, [Error(jitlink::LinkGraph &)]: it may rewrite the
    graph it is handed, write to the stream, and report an error. *)
Definition Pass : Type := LinkGraph -> M (Error * LinkGraph).

(** The two pass lists of [jitlink::PassConfiguration] the plugin
    touches: [PostPrunePasses] run before the linker applies fixups,
    [PostFixupPasses] afterwards. *)
Record PassConfiguration : Type := mkPassConfiguration {
  PostPrunePasses : list Pass;
  PostFixupPasses : list Pass
}.

(** [Config.PostPrunePasses.push_back(P)] *)
Definition push_back_PostPrune (P : Pass) (Config : PassConfiguration)
  : PassConfiguration :=
  mkPassConfiguration (PostPrunePasses Config ++ [P])
                      (PostFixupPasses Config).

(** [Config.PostFixupPasses.push_back(P)] *)
Definition push_back_PostFixup (P : Pass) (Config : PassConfiguration)
  : PassConfiguration :=
  mkPassConfiguration (PostPrunePasses Config)
                      (PostFixupPasses Config ++ [P]).

Record MaterializationResponsibility : Type := mkMR {
  getSymbols : list string
}.

Definition Triple : Type := string.

(** [ObjectLinkingLayer::Plugin], reduced to its configuration hook: a
    [void] method that edits the configuration in place. *)
Record Plugin : Type := mkPlugin {
  modifyPassConfig :
    MaterializationResponsibility -> Triple ->
    PassConfiguration -> PassConfiguration
}.

(** Modelled from the spec: the dispatcher that owns the registered
    plugins is part of the object linking layer, outside src/.
    [configurePasses] "invokes each plugin's configuration hook in
    order, letting each append zero or more passes to either list". *)
Definition configurePasses (Plugins : list Plugin)
    (MR : MaterializationResponsibility) (TT : Triple)
    (Config : PassConfiguration) : PassConfiguration :=
  fold_left (fun Cfg P => modifyPassConfig P MR TT Cfg) Plugins Config.

Definition emptyConfig : PassConfiguration := mkPassConfiguration [] [].

End Orc.

(** ** The plugin *)

Module MyPlugin.

Definition LineWidth : Z := 16.

(** [B->getAddress() & ~(LineWidth - 1)] *)
Definition InitAddr (B : Block) : Z :=
  Z.land (getAddress B) (U64.not (LineWidth - 1)).

Definition StartAddr (B : Block) : Z := getAddress B.

(** [B->getAddress() + B->getSize()], in 64 bits. *)
Definition EndAddr (B : Block) : Z :=
  U64.wrap (getAddress B + getSize B).

(** The body of the [for] loop over [CurAddr]. *)
Definition dumpCell (B : Block) (CurAddr : Z) : M unit :=
  when (CurAddr mod LineWidth =? 0) (emit (LineHeader CurAddr)) ;;
  (if CurAddr <? StartAddr B
   then emit Blank
   else b <- read (getContent B) (U64.wrap (CurAddr - StartAddr B)) ;;
        emit (ByteCell b)) ;;
  when (CurAddr mod LineWidth =? LineWidth - 1) (emit LineBreak).

(** [for (CurAddr = ...; CurAddr != EndAddr; ++CurAddr)]: [fuel] bounds
    the number of iterations. *)
Fixpoint dumpLoop (fuel : nat) (B : Block) (CurAddr : Z) : M unit :=
  if CurAddr =? EndAddr B then ret tt
  else
    match fuel with
    | O => out_of_fuel
    | S fuel' =>
        dumpCell B CurAddr ;;
        dumpLoop fuel' B (U64.wrap (CurAddr + 1))
    end.

(** The distance the loop counter travels before it meets [EndAddr];
    [dumpLoop_no_timeout] shows that this many iterations always
    suffice. *)
Definition iterations (B : Block) : nat :=
  Z.to_nat (U64.wrap (EndAddr B - InitAddr B)).

(** The body of the loop over the blocks of a section. *)
Definition printBlock (B : Block) : M unit :=
  emit (BlockLine (getAddress B)) ;;
  if isZeroFill B then ret tt
  else
    dumpLoop (iterations B) B (InitAddr B) ;;
    when (negb (EndAddr B mod LineWidth =? 0)) (emit LineBreak) ;;
    emit LineBreak.

Definition printSection (S : Section) : M unit :=
  emit (SectionLine (getName S)) ;;
  for_each (blocks S) printBlock.

Definition printLinkGraph (G : LinkGraph) (Title : string) : M unit :=
  emit (TitleLine Title) ;;
  for_each (sections G) printSection.

(** The lambda pushed onto [PostPrunePasses]. *)
Definition beforeFixupPass : Orc.Pass :=
  fun G => printLinkGraph G "Before fixup:" ;; ret (Orc.success, G).

(** The lambda pushed onto [PostFixupPasses]. *)
Definition afterFixupPass : Orc.Pass :=
  fun G => printLinkGraph G "After fixup:" ;; ret (Orc.success, G).

Definition modifyPassConfig (MR : Orc.MaterializationResponsibility)
    (TT : Orc.Triple) (Config : Orc.PassConfiguration)
  : Orc.PassConfiguration :=
  let Config := Orc.push_back_PostPrune beforeFixupPass Config in
  let Config := Orc.push_back_PostFixup afterFixupPass Config in
  Config.

Definition plugin : Orc.Plugin := Orc.mkPlugin modifyPassConfig.

End MyPlugin.

Import MyPlugin.

(** ** Vocabulary of the statements *)

(** The addresses the loop counter takes in [n] iterations that start at
    [CurAddr]. *)
Fixpoint running (CurAddr : Z) (n : nat) : list Z :=
  match n with
  | O => []
  | S n' => CurAddr :: running (U64.wrap (CurAddr + 1)) n'
  end.

Definition running_addresses (B : Block) : list Z :=
  running (InitAddr B) (iterations B).

(** The offset into the content buffer that the loop reads at the running
    address [a], and what it means for that read to be inside the buffer. *)
Definition offset (B : Block) (a : Z) : Z := U64.wrap (a - StartAddr B).

Definition in_bounds (B : Block) (a : Z) : Prop :=
  0 <= offset B a < Z.of_nat (List.length (getContent B)).

(** The cell of one running address: blank padding below the block, the
    byte at that address otherwise. *)
Definition cell_at (B : Block) (a : Z) : chunk :=
  if a <? StartAddr B then Blank
  else ByteCell (nth (Z.to_nat (offset B a)) (getContent B) x00).

Definition header_at (a : Z) : stream :=
  if a mod LineWidth =? 0 then [LineHeader a] else [].

Definition break_at (a : Z) : stream :=
  if a mod LineWidth =? LineWidth - 1 then [LineBreak] else [].

(** Everything one iteration writes. *)
Definition line_at (B : Block) (a : Z) : stream :=
  header_at a ++ [cell_at B a] ++ break_at a.

(** The line break after the loop, for a dump that stops inside a line. *)
Definition boundary_break (B : Block) : stream :=
  if (getAddress B + getSize B) mod LineWidth =? 0 then [] else [LineBreak].

(** A computation is appending when running it behind a stream [s] is
    running it on the empty stream and putting the result behind [s]. *)
Definition appending {A} (m : M A) : Prop :=
  forall s, m s = after s (m []).

(** The consecutive addresses [a, a+1, ..., a+n-1]. *)
Definition span (a : Z) (n : nat) : list Z :=
  map (fun k => a + Z.of_nat k) (seq 0 n).

(** A plugin's hook appends [pre] to the passes that run before fixups
    and [post] to those that run after, and leaves what is there alone. *)
Definition contributes (P : Orc.Plugin)
    (MR : Orc.MaterializationResponsibility) (TT : Orc.Triple)
    (pre post : list Orc.Pass) : Prop :=
  forall Config,
    Orc.modifyPassConfig P MR TT Config =
    Orc.mkPassConfiguration (Orc.PostPrunePasses Config ++ pre)
                            (Orc.PostFixupPasses Config ++ post).

(** A block whose address range runs past the end of the address space,
    and the block of the worked example of the specification. *)
Definition wrapping_block : Block :=
  mkBlock 18446744073709551608 16 false
          [x00; x01; x02; x03; x04; x05; x06; x07;
           x08; x09; x0a; x0b; x0c; x0d; x0e; x0f].

Definition example_block (b0 b1 b2 b3 b4 : byte) : Block :=
  mkBlock 4099 5 false [b0; b1; b2; b3; b4].

(** A graph the renderer can be handed: every block holds values of its
    types and every content block has a buffer of its size. *)
Definition block_ok (B : Block) : Prop :=
  valid_block B /\ (isZeroFill B = false -> content_sized B).

Definition graph_ok (G : LinkGraph) : Prop :=
  Forall (fun S => Forall block_ok (blocks S)) (sections G).

Definition example_graph : LinkGraph :=
  mkLinkGraph
    [mkSection "__text" [example_block x41 x42 x43 x44 x45];
     mkSection "__bss" [mkBlock 8192 64 true []]].

(** Two more plugins the interface admits.  The hook of the first pushes
    one pass, which does nothing, onto [PostPrunePasses]; the hook of the
    second empties both lists ([clear()] on each). *)
Definition idlePass : Orc.Pass := fun G => ret (Orc.success, G).

Definition idle_plugin : Orc.Plugin :=
  Orc.mkPlugin (fun _ _ Config => Orc.push_back_PostPrune idlePass Config).

Definition clearing_plugin : Orc.Plugin :=
  Orc.mkPlugin (fun _ _ _ => Orc.mkPassConfiguration [] []).

(** ** Vocabulary of the further properties *)

(** What a block, a section and the sections of a graph put on the
    stream, written without the loop. *)
Definition block_dump (B : Block) : stream :=
  BlockLine (getAddress B) ::
  (if isZeroFill B then []
   else flat_map (line_at B) (running_addresses B) ++
        boundary_break B ++ [LineBreak]).

Definition section_dump (S : Section) : stream :=
  SectionLine (getName S) :: flat_map block_dump (blocks S).

Definition graph_dump (G : LinkGraph) : stream :=
  flat_map section_dump (sections G).

(** One line of a hex dump: the header for [c], the cells of the [k]
    addresses from [c] on, and the break that ends the line. *)
Definition dump_line (B : Block) (c : Z) (k : nat) : stream :=
  LineHeader c :: map (cell_at B) (span c k) ++ [LineBreak].

(** The bytes shown by the byte cells of a stream, in order. *)
Definition bytes_of (s : stream) : list byte :=
  flat_map (fun c => match c with ByteCell b => [b] | _ => [] end) s.

(** The bytes a block holds for the renderer to show. *)
Definition shown_content (B : Block) : list byte :=
  if isZeroFill B then [] else getContent B.

(** The same block over another buffer. *)
Definition with_content (B : Block) (Data : list byte) : Block :=
  mkBlock (getAddress B) (getSize B) (isZeroFill B) Data.

(** A well-formed block whose end, if it has content, does not
    overflow. *)
Definition block_fits (B : Block) : Prop :=
  block_ok B /\ (isZeroFill B = false -> no_wrap B).

Definition graph_fits (G : LinkGraph) : Prop :=
  Forall (fun S => Forall block_fits (blocks S)) (sections G).

(** * Properties *)

(** ** The model at work *)

Example example_graph_text :
  match printLinkGraph example_graph "Before fixup:" [] with
  | Done (_, out) => text out
  | _ => EmptyString
  end =
  ("--- Before fixup:---" ++ nl ++
   "  section: __text" ++ nl ++
   "    block@0x0000000000001003:" ++ nl ++
   "    0x0000000000001000:          41 42 43 44 45 " ++ nl ++
   nl ++
   "  section: __bss" ++ nl ++
   "    block@0x0000000000002000:" ++ nl)%string.
Proof. vm_compute. reflexivity. Qed.

(** A buffer shorter than the declared size makes the renderer read out
    of range: the fault the data-model invariant excludes. *)
Example short_buffer_faults :
  printBlock (mkBlock 4099 5 false [x01; x02; x03]) [] =
  Fault (OutOfBounds 3 3).
Proof. vm_compute. reflexivity. Qed.

(** ** Arithmetic of 64-bit addresses *)

Section Arithmetic.

Lemma wrap_fits z : U64.fits (U64.wrap z).
Proof.
  unfold U64.fits, U64.wrap, U64.modulus.
  apply Z.mod_pos_bound. lia.
Qed.

Lemma wrap_small z : U64.fits z -> U64.wrap z = z.
Proof. intros H. apply Z.mod_small. exact H. Qed.

Lemma wrap_succ_r a b : U64.wrap (a - U64.wrap (b + 1)) = U64.wrap (a - b - 1).
Proof.
  unfold U64.wrap. rewrite Zminus_mod_idemp_r. f_equal. lia.
Qed.

(** One more step of the counter brings it one closer to its target. *)
Lemma distance_step e c n :
  U64.wrap (e - c) = Z.of_nat (S n) ->
  U64.wrap (e - U64.wrap (c + 1)) = Z.of_nat n.
Proof.
  intros H. rewrite wrap_succ_r. unfold U64.wrap, U64.modulus in *.
  pose proof (Z.mod_pos_bound (e - c) 18446744073709551616 ltac:(lia)) as Hb.
  symmetry. apply Z.mod_unique with (q := (e - c) / 18446744073709551616).
  - left. lia.
  - pose proof (Z.div_mod (e - c) 18446744073709551616 ltac:(lia)). lia.
Qed.

Lemma distance_zero e c :
  U64.fits e -> U64.fits c -> U64.wrap (e - c) = 0 -> c = e.
Proof.
  unfold U64.fits, U64.wrap, U64.modulus. intros He Hc H.
  apply Z.mod_divide in H; [| lia]. destruct H as [q Hq]. nia.
Qed.

(** Masking with [~(LineWidth - 1)] rounds down to a multiple of
    [LineWidth]. *)
Lemma mask_rounds_down a :
  U64.fits a ->
  Z.land a (U64.not (LineWidth - 1)) = a - a mod LineWidth.
Proof.
  intros Ha.
  change (U64.not (LineWidth - 1))
    with (Z.land (Z.ones 64) (Z.lnot (Z.ones 4))).
  rewrite Z.land_assoc, Z.land_ones by lia.
  change (2 ^ 64) with U64.modulus.
  fold (U64.wrap a). rewrite (wrap_small a Ha).
  rewrite <- Z.ldiff_land, Z.ldiff_ones_r by lia.
  rewrite Z.shiftl_mul_pow2, Z.shiftr_div_pow2 by lia.
  change (2 ^ 4) with LineWidth. unfold LineWidth.
  pose proof (Z.div_mod a 16 ltac:(lia)). lia.
Qed.

Lemma InitAddr_rounds_down B :
  valid_block B ->
  InitAddr B = getAddress B - getAddress B mod LineWidth.
Proof. intros [Ha _]. apply mask_rounds_down, Ha. Qed.

Lemma InitAddr_fits B : valid_block B -> U64.fits (InitAddr B).
Proof.
  intros HB. rewrite (InitAddr_rounds_down B HB).
  destruct HB as [Ha _]. unfold U64.fits, U64.modulus, LineWidth in *.
  pose proof (Z.mod_pos_bound (getAddress B) 16 ltac:(lia)). lia.
Qed.

Lemma EndAddr_fits B : U64.fits (EndAddr B).
Proof. apply wrap_fits. Qed.

End Arithmetic.

(** ** Writing only ever appends *)

Section Appending.

Lemma after_nil {A} (r : outcome (A * stream)) : after [] r = r.
Proof. destruct r as [[a o] | f |]; reflexivity. Qed.

Lemma after_after {A} s s' (r : outcome (A * stream)) :
  after s (after s' r) = after (s ++ s') r.
Proof.
  destruct r as [[a o] | f |]; simpl; try reflexivity.
  now rewrite app_assoc.
Qed.

Lemma appending_ret {A} (a : A) : appending (ret a).
Proof. intros s. unfold ret. simpl. now rewrite app_nil_r. Qed.

Lemma appending_emit c : appending (emit c).
Proof. intros s. reflexivity. Qed.

Lemma appending_read Data i : appending (read Data i).
Proof.
  intros s. unfold read.
  destruct (nth_error Data (Z.to_nat i)); simpl; trivial.
  now rewrite app_nil_r.
Qed.

Lemma appending_out_of_fuel {A} : appending (@out_of_fuel A).
Proof. intros s. reflexivity. Qed.

Lemma appending_bind {A B} (m : M A) (k : A -> M B) :
  appending m -> (forall a, appending (k a)) -> appending (bind m k).
Proof.
  intros Hm Hk s. unfold bind. rewrite (Hm s).
  destruct (m []) as [[a o] | f |]; simpl; trivial.
  rewrite (Hk a (s ++ o)), (Hk a o). now rewrite after_after.
Qed.

Lemma appending_when c m : appending m -> appending (when c m).
Proof. destruct c; simpl; [auto | intros _; apply appending_ret]. Qed.

Lemma appending_for_each {A} (l : list A) body :
  (forall x, appending (body x)) -> appending (for_each l body).
Proof.
  intros Hb. induction l as [| x l IH]; simpl.
  - apply appending_ret.
  - apply appending_bind; auto.
Qed.

Lemma appending_dumpCell B a : appending (dumpCell B a).
Proof.
  unfold dumpCell.
  apply appending_bind; [apply appending_when, appending_emit | intros _].
  apply appending_bind; [| intros _; apply appending_when, appending_emit].
  destruct (a <? StartAddr B).
  - apply appending_emit.
  - apply appending_bind; [apply appending_read | intros b].
    apply appending_emit.
Qed.

Lemma appending_dumpLoop fuel B : forall a, appending (dumpLoop fuel B a).
Proof.
  induction fuel as [| fuel IH]; intros a; simpl;
    destruct (a =? EndAddr B);
    try apply appending_ret; try apply appending_out_of_fuel.
  apply appending_bind; [apply appending_dumpCell | intros _; apply IH].
Qed.

Lemma appending_printBlock B : appending (printBlock B).
Proof.
  unfold printBlock.
  apply appending_bind; [apply appending_emit | intros _].
  destruct (isZeroFill B); [apply appending_ret |].
  apply appending_bind; [apply appending_dumpLoop | intros _].
  apply appending_bind; [apply appending_when, appending_emit | intros _].
  apply appending_emit.
Qed.

Lemma appending_printSection S : appending (printSection S).
Proof.
  unfold printSection.
  apply appending_bind; [apply appending_emit | intros _].
  apply appending_for_each, appending_printBlock.
Qed.

Lemma appending_printLinkGraph G Title : appending (printLinkGraph G Title).
Proof.
  unfold printLinkGraph.
  apply appending_bind; [apply appending_emit | intros _].
  apply appending_for_each, appending_printSection.
Qed.

Lemma text_app s1 s2 : text (s1 ++ s2) = (text s1 ++ text s2)%string.
Proof.
  induction s1 as [| c s1 IH]; simpl; trivial.
  rewrite IH. clear IH.
  induction (show c) as [| ch t IHt]; simpl; trivial.
  now rewrite IHt.
Qed.

End Appending.

(** ** What the loop writes *)

Section Loop.

Variable B : Block.

Lemma bind_run {A C} (m : M A) (k : A -> M C) a o :
  m [] = Done (a, o) -> appending (k a) ->
  bind m k [] = after o (k a []).
Proof.
  intros Hm Hk. unfold bind. rewrite Hm. apply Hk.
Qed.

Lemma dumpCell_run a :
  (StartAddr B <= a -> in_bounds B a) ->
  dumpCell B a [] = Done (tt, line_at B a).
Proof.
  intros Hin.
  unfold dumpCell, line_at, header_at, break_at, cell_at, offset, bind, when.
  generalize (a mod LineWidth =? 0) (a mod LineWidth =? LineWidth - 1).
  intros c0 c15.
  destruct (Z.ltb_spec a (StartAddr B)) as [Hlt | Hge].
  - destruct c0, c15; reflexivity.
  - destruct (Hin Hge) as [Hlo Hhi]. unfold offset in Hlo, Hhi.
    assert (Hn : nth_error (getContent B)
                   (Z.to_nat (U64.wrap (a - StartAddr B))) =
                 Some (nth (Z.to_nat (U64.wrap (a - StartAddr B)))
                           (getContent B) x00)).
    { apply nth_error_nth'. lia. }
    unfold read. destruct c0, c15; simpl; rewrite Hn; reflexivity.
Qed.

Lemma dumpLoop_run n : forall CurAddr,
  U64.fits CurAddr ->
  U64.wrap (EndAddr B - CurAddr) = Z.of_nat n ->
  (forall a, In a (running CurAddr n) -> StartAddr B <= a -> in_bounds B a) ->
  dumpLoop n B CurAddr [] = Done (tt, flat_map (line_at B) (running CurAddr n)).
Proof.
  induction n as [| n IH]; intros CurAddr Hfit Hdist Hin.
  - apply distance_zero in Hdist; [| apply EndAddr_fits | exact Hfit].
    simpl. rewrite Hdist, Z.eqb_refl. reflexivity.
  - assert (Hne : (CurAddr =? EndAddr B) = false).
    { apply Z.eqb_neq. intros ->. rewrite Z.sub_diag in Hdist.
      unfold U64.wrap in Hdist. rewrite Zmod_0_l in Hdist. lia. }
    cbn [dumpLoop running flat_map]. rewrite Hne.
    rewrite (bind_run _ _ tt (line_at B CurAddr)).
    + rewrite IH.
      * reflexivity.
      * apply wrap_fits.
      * now apply distance_step.
      * intros a Ha. apply Hin. now right.
    + apply dumpCell_run. apply Hin. now left.
    + apply appending_dumpLoop.
Qed.

End Loop.

(** ** The addresses the loop visits *)

Section Running.

Lemma running_In n : forall c a,
  U64.fits c -> In a (running c n) ->
  exists k, 0 <= k < Z.of_nat n /\ a = U64.wrap (c + k).
Proof.
  induction n as [| n IH]; intros c a Hc Hin; simpl in Hin; [contradiction |].
  destruct Hin as [<- | Hin].
  - exists 0. split; [lia |]. rewrite Z.add_0_r. symmetry. now apply wrap_small.
  - destruct (IH _ _ (wrap_fits _) Hin) as [k [Hk ->]].
    exists (k + 1). split; [lia |].
    unfold U64.wrap. rewrite Zplus_mod_idemp_l. f_equal. lia.
Qed.

(** Without wrap-around the loop walks a plain interval. *)
Lemma running_span n : forall c,
  0 <= c -> c + Z.of_nat n <= U64.modulus ->
  running c n = span c n.
Proof.
  unfold span.
  induction n as [| n IH]; intros c Hc Hn; [reflexivity |].
  cbn [running seq map]. f_equal; [lia |].
  rewrite <- seq_shift, map_map.
  destruct n as [| n']; [reflexivity |].
  rewrite wrap_small by (unfold U64.fits; lia).
  rewrite IH by lia.
  apply map_ext. intros k. lia.
Qed.

Lemma iterations_distance B :
  U64.wrap (EndAddr B - InitAddr B) = Z.of_nat (iterations B).
Proof.
  unfold iterations. rewrite Z2Nat.id; [reflexivity |].
  apply wrap_fits.
Qed.

(** The number of iterations when the block does not wrap: the padding
    plus the size. *)
Lemma iterations_no_wrap B :
  valid_block B -> no_wrap B ->
  Z.of_nat (iterations B) = getAddress B mod LineWidth + getSize B.
Proof.
  intros HB Hnw. rewrite <- iterations_distance.
  rewrite (InitAddr_rounds_down B HB).
  destruct HB as [Ha Hs].
  unfold EndAddr, no_wrap, U64.wrap, U64.fits, U64.modulus, LineWidth in *.
  lia.
Qed.

(** Every read the loop performs on a block whose buffer holds
    [getSize] bytes is inside the buffer. *)
Lemma running_in_bounds B a :
  valid_block B -> content_sized B ->
  In a (running_addresses B) -> StartAddr B <= a -> in_bounds B a.
Proof.
  intros HB Hc Hin Hge.
  unfold running_addresses in Hin.
  apply running_In in Hin; [| now apply InitAddr_fits].
  pose proof (iterations_distance B) as Hd.
  pose proof (InitAddr_rounds_down B HB) as Hi.
  unfold in_bounds, offset, content_sized in *. rewrite Hc.
  destruct HB as [Ha Hs].
  unfold EndAddr, StartAddr, U64.wrap, U64.fits, U64.modulus, LineWidth in *.
  destruct Hin as [k [Hk ->]]. lia.
Qed.

End Running.

(** ** What a block writes *)

Section BlockDump.

Variable B : Block.

Lemma EndAddr_mod : EndAddr B mod LineWidth = (getAddress B + getSize B) mod LineWidth.
Proof. unfold EndAddr, U64.wrap, U64.modulus, LineWidth. lia. Qed.

Lemma printBlock_zero_fill s :
  isZeroFill B = true ->
  printBlock B s = Done (tt, s ++ [BlockLine (getAddress B)]).
Proof.
  intros Hz. unfold printBlock, bind, emit. rewrite Hz. reflexivity.
Qed.

(** The dump of a content block, given that every read it makes is inside
    the buffer. *)
Lemma printBlock_dump :
  valid_block B -> isZeroFill B = false ->
  (forall a, In a (running_addresses B) -> StartAddr B <= a -> in_bounds B a) ->
  printBlock B [] =
  Done (tt, [BlockLine (getAddress B)] ++
            flat_map (line_at B) (running_addresses B) ++
            boundary_break B ++ [LineBreak]).
Proof.
  intros HB Hz Hin. unfold printBlock. rewrite Hz.
  rewrite (bind_run _ _ tt [BlockLine (getAddress B)]); [| reflexivity |].
  - rewrite (bind_run _ _ tt (flat_map (line_at B) (running_addresses B))).
    + unfold boundary_break. rewrite <- EndAddr_mod.
      unfold bind, when, emit, ret.
      destruct (EndAddr B mod LineWidth =? 0); simpl;
        now rewrite <- ?app_assoc.
    + apply dumpLoop_run; auto using InitAddr_fits, iterations_distance.
    + apply appending_bind; [apply appending_when, appending_emit | intros _].
      apply appending_emit.
  - apply appending_bind; [apply appending_dumpLoop | intros _].
    apply appending_bind; [apply appending_when, appending_emit | intros _].
    apply appending_emit.
Qed.

Lemma printBlock_run :
  valid_block B -> isZeroFill B = false -> content_sized B ->
  printBlock B [] =
  Done (tt, [BlockLine (getAddress B)] ++
            flat_map (line_at B) (running_addresses B) ++
            boundary_break B ++ [LineBreak]).
Proof.
  intros HB Hz Hc. apply printBlock_dump; auto.
  intros a. now apply running_in_bounds.
Qed.

End BlockDump.

(** ** The loop always comes to its end *)

Section Totality.

Lemma dumpCell_no_timeout B a s : dumpCell B a s <> OutOfFuel.
Proof.
  unfold dumpCell, bind, when, emit, ret, read.
  destruct (a mod LineWidth =? 0), (a <? StartAddr B),
    (a mod LineWidth =? LineWidth - 1); simpl;
    try destruct (nth_error _ _); simpl; discriminate.
Qed.

Lemma dumpLoop_no_timeout B n : forall CurAddr s,
  U64.fits CurAddr ->
  U64.wrap (EndAddr B - CurAddr) = Z.of_nat n ->
  dumpLoop n B CurAddr s <> OutOfFuel.
Proof.
  induction n as [| n IH]; intros CurAddr s Hfit Hdist.
  - apply distance_zero in Hdist; [| apply EndAddr_fits | exact Hfit].
    simpl. rewrite Hdist, Z.eqb_refl. discriminate.
  - cbn [dumpLoop]. destruct (CurAddr =? EndAddr B); [discriminate |].
    unfold bind at 1.
    destruct (dumpCell B CurAddr s) as [[[] s'] | f |] eqn:Hcell.
    + apply IH; [apply wrap_fits | now apply distance_step].
    + discriminate.
    + now apply dumpCell_no_timeout in Hcell.
Qed.

Lemma printBlock_no_timeout B s :
  valid_block B -> printBlock B s <> OutOfFuel.
Proof.
  intros HB. unfold printBlock, bind at 1, emit.
  destruct (isZeroFill B); [discriminate |].
  unfold bind at 1.
  destruct (dumpLoop _ _ _ _) as [[[] s'] | f |] eqn:Hloop.
  - unfold bind, when, emit, ret.
    destruct (negb _); discriminate.
  - discriminate.
  - apply dumpLoop_no_timeout in Hloop;
      auto using InitAddr_fits, iterations_distance.
Qed.

(** The one fault there is reports a read that is truly out of range. *)
Lemma dumpCell_fault B a s i n :
  dumpCell B a s = Fault (OutOfBounds i n) ->
  n = List.length (getContent B) /\ Z.of_nat n <= i.
Proof.
  unfold dumpCell, bind, when, emit, ret, read.
  destruct (a mod LineWidth =? 0), (a <? StartAddr B),
    (a mod LineWidth =? LineWidth - 1); simpl; try discriminate.
  all: destruct (nth_error _ _) eqn:Hn; simpl; try discriminate.
  all: intros [= <- <-]; apply nth_error_None in Hn.
  all: pose proof (wrap_fits (a - StartAddr B)) as Hw.
  all: unfold U64.fits in Hw; split; [reflexivity | lia].
Qed.

Lemma dumpLoop_fault B fuel : forall CurAddr s i n,
  dumpLoop fuel B CurAddr s = Fault (OutOfBounds i n) ->
  n = List.length (getContent B) /\ Z.of_nat n <= i.
Proof.
  induction fuel as [| fuel IH]; intros CurAddr s i n; cbn [dumpLoop];
    destruct (CurAddr =? EndAddr B); try discriminate.
  unfold bind at 1.
  destruct (dumpCell B CurAddr s) as [[[] s'] | f |] eqn:Hcell.
  - apply IH.
  - intros [= ->]. now apply dumpCell_fault in Hcell.
  - discriminate.
Qed.

Lemma printBlock_fault B s i n :
  printBlock B s = Fault (OutOfBounds i n) ->
  n = List.length (getContent B) /\ Z.of_nat n <= i.
Proof.
  unfold printBlock, bind at 1, emit.
  destruct (isZeroFill B); [discriminate |].
  unfold bind at 1.
  destruct (dumpLoop _ _ _ _) as [[[] s'] | f |] eqn:Hloop.
  - unfold bind, when, emit, ret. destruct (negb _); discriminate.
  - intros [= ->]. now apply dumpLoop_fault in Hloop.
  - discriminate.
Qed.

End Totality.

(** ** Lists *)

Section Lists.

Lemma map_nth_seq {A} (l : list A) d :
  map (fun k => nth k l d) (seq 0 (List.length l)) = l.
Proof.
  induction l as [| x l IH]; [reflexivity |].
  cbn [List.length seq map nth]. f_equal.
  rewrite <- seq_shift, map_map. exact IH.
Qed.

Lemma flat_map_single {A C} (f : A -> list C) (c : C) l :
  (forall x, In x l -> f x = [c]) ->
  flat_map f l = repeat c (List.length l).
Proof.
  induction l as [| x l IH]; intros H; [reflexivity |].
  cbn [flat_map List.length repeat].
  rewrite (H x (or_introl eq_refl)), IH; [reflexivity |].
  intros y Hy. apply H. now right.
Qed.

Lemma map_single {A C} (f : A -> C) (c : C) l :
  (forall x, In x l -> f x = c) ->
  map f l = repeat c (List.length l).
Proof.
  induction l as [| x l IH]; intros H; [reflexivity |].
  cbn [map List.length repeat].
  rewrite (H x (or_introl eq_refl)), IH; [reflexivity |].
  intros y Hy. apply H. now right.
Qed.

Lemma span_length a n : List.length (span a n) = n.
Proof. unfold span. now rewrite length_map, length_seq. Qed.

Lemma span_In a n x : In x (span a n) <-> a <= x < a + Z.of_nat n.
Proof.
  unfold span. rewrite in_map_iff. split.
  - intros [k [<- Hk]]. apply in_seq in Hk. lia.
  - intros H. exists (Z.to_nat (x - a)). split; [lia |].
    apply in_seq. lia.
Qed.

Lemma span_app a n m :
  span a (n + m) = span a n ++ span (a + Z.of_nat n) m.
Proof.
  unfold span. rewrite seq_app, map_app. f_equal.
  rewrite <- (Nat.add_0_l n) at 1.
  generalize 0%nat at 1 3 as i.
  induction m as [| m IH]; intros i; [reflexivity |].
  cbn [seq map]. f_equal; [lia |].
  rewrite <- Nat.add_succ_l. apply IH.
Qed.

Lemma span_cons a n : span a (S n) = a :: span (a + 1) n.
Proof.
  change (S n) with (1 + n)%nat. rewrite span_app.
  unfold span at 1. simpl. now rewrite Z.add_0_r.
Qed.

Lemma count_app p s1 s2 : count p (s1 ++ s2) = (count p s1 + count p s2)%nat.
Proof. unfold count. now rewrite filter_app, length_app. Qed.

Lemma last_char_app s1 s2 :
  s2 <> EmptyString -> last_char (s1 ++ s2)%string = last_char s2.
Proof.
  intros H2. induction s1 as [| ch s1 IH]; [reflexivity |].
  cbn [String.append last_char]. rewrite IH.
  destruct (s1 ++ s2)%string eqn:E; [| reflexivity].
  destruct s1; simpl in E; [contradiction | discriminate].
Qed.

Lemma string_app_assoc (s1 s2 s3 : string) :
  ((s1 ++ s2) ++ s3 = s1 ++ s2 ++ s3)%string.
Proof.
  induction s1 as [| ch s1 IH]; [reflexivity |].
  simpl. now rewrite IH.
Qed.

Lemma ends_line_break s : ends_line (s ++ [LineBreak]).
Proof.
  unfold ends_line. rewrite text_app, last_char_app; [reflexivity |].
  discriminate.
Qed.

End Lists.

(** ** The cells, headers and breaks of a dump *)

Section Lines.

Variable B : Block.

Lemma cell_at_is_cell a : is_cell (cell_at B a) = true.
Proof. unfold cell_at. now destruct (a <? StartAddr B). Qed.

Lemma cell_at_plain a :
  is_header (cell_at B a) = false /\ is_break (cell_at B a) = false.
Proof. unfold cell_at. now destruct (a <? StartAddr B). Qed.

Lemma cells_of_lines l :
  filter is_cell (flat_map (line_at B) l) = map (cell_at B) l.
Proof.
  induction l as [| a l IH]; [reflexivity |].
  cbn [flat_map map]. rewrite filter_app, IH. f_equal.
  unfold line_at, header_at, break_at. rewrite !filter_app.
  cbn [filter]. rewrite cell_at_is_cell.
  destruct (a mod LineWidth =? 0), (a mod LineWidth =? LineWidth - 1);
    reflexivity.
Qed.

Lemma headers_of_lines l :
  filter is_header (flat_map (line_at B) l) =
  map LineHeader (filter (fun a => a mod LineWidth =? 0) l).
Proof.
  induction l as [| a l IH]; [reflexivity |].
  cbn [flat_map filter]. rewrite filter_app, IH.
  unfold line_at, header_at, break_at. rewrite !filter_app.
  cbn [filter]. rewrite (proj1 (cell_at_plain a)).
  destruct (a mod LineWidth =? 0), (a mod LineWidth =? LineWidth - 1);
    reflexivity.
Qed.

Lemma breaks_of_lines l :
  count is_break (flat_map (line_at B) l) =
  List.length (filter (fun a => a mod LineWidth =? LineWidth - 1) l).
Proof.
  induction l as [| a l IH]; [reflexivity |].
  cbn [flat_map filter]. rewrite count_app, IH.
  unfold line_at, header_at, break_at. rewrite !count_app.
  unfold count at 2. cbn [filter]. rewrite (proj2 (cell_at_plain a)).
  destruct (a mod LineWidth =? 0), (a mod LineWidth =? LineWidth - 1);
    reflexivity.
Qed.

Lemma boundary_break_no_cell : filter is_cell (boundary_break B) = [].
Proof. unfold boundary_break. now destruct (_ =? 0). Qed.

(** The padding in front of the block. *)
Lemma padding : valid_block B ->
  getAddress B - InitAddr B = getAddress B mod LineWidth.
Proof. intros HB. rewrite (InitAddr_rounds_down B HB). lia. Qed.

(** Without overflow the loop walks the padding and then the block. *)
Lemma running_no_wrap :
  valid_block B -> content_sized B -> no_wrap B ->
  running_addresses B =
  span (InitAddr B) (Z.to_nat (getAddress B - InitAddr B)) ++
  span (getAddress B) (List.length (getContent B)).
Proof.
  intros HB Hc Hnw.
  pose proof (iterations_no_wrap B HB Hnw) as Hn.
  pose proof (padding HB) as Hp.
  pose proof (InitAddr_fits B HB) as Hi.
  unfold content_sized, no_wrap, U64.fits, LineWidth in *.
  unfold running_addresses. rewrite running_span by lia.
  replace (iterations B)
    with (Z.to_nat (getAddress B - InitAddr B) + List.length (getContent B))%nat
    by lia.
  rewrite span_app. do 2 f_equal. lia.
Qed.

Lemma cell_at_padding a : a < getAddress B -> cell_at B a = Blank.
Proof.
  intros H. unfold cell_at, StartAddr.
  now destruct (Z.ltb_spec a (getAddress B)); [| lia].
Qed.

Lemma cell_at_content a :
  getAddress B <= a < getAddress B + U64.modulus ->
  cell_at B a =
  ByteCell (nth (Z.to_nat (a - getAddress B)) (getContent B) x00).
Proof.
  intros H. unfold cell_at, offset, StartAddr.
  destruct (Z.ltb_spec a (getAddress B)); [lia |].
  rewrite wrap_small; [reflexivity |]. unfold U64.fits. lia.
Qed.

Lemma cells_no_wrap :
  valid_block B -> content_sized B -> no_wrap B ->
  map (cell_at B) (running_addresses B) =
  repeat Blank (Z.to_nat (getAddress B - InitAddr B)) ++
  map ByteCell (getContent B).
Proof.
  intros HB Hc Hnw. rewrite running_no_wrap, map_app by assumption.
  f_equal.
  - rewrite (map_single _ Blank), span_length; [reflexivity |].
    intros a Ha. apply span_In in Ha. apply cell_at_padding.
    pose proof (padding HB). unfold LineWidth in *. lia.
  - unfold span. rewrite map_map.
    rewrite <- (map_nth_seq (getContent B) x00) at 2. rewrite map_map.
    apply map_ext_in. intros k Hk. apply in_seq in Hk.
    rewrite cell_at_content.
    + do 2 f_equal. lia.
    + destruct HB as [_ Hs]. unfold content_sized, U64.fits in *. lia.
Qed.

End Lines.

(** ** Counting cells *)

Section Counting.

Lemma filter_blank_cells s :
  filter is_blank (filter is_cell s) = filter is_blank s.
Proof.
  induction s as [| c s IH]; [reflexivity |].
  destruct c; cbn; now rewrite ?IH.
Qed.

Lemma filter_byte_cells s :
  filter is_byte_cell (filter is_cell s) = filter is_byte_cell s.
Proof.
  induction s as [| c s IH]; [reflexivity |].
  destruct c; cbn; now rewrite ?IH.
Qed.

Lemma count_blank_layout n l :
  count is_blank (repeat Blank n ++ map ByteCell l) = n.
Proof.
  rewrite count_app. unfold count.
  replace (filter is_blank (map ByteCell l)) with (@nil chunk)
    by (induction l; simpl; auto).
  replace (filter is_blank (repeat Blank n)) with (repeat Blank n)
    by (induction n; simpl; congruence).
  rewrite repeat_length. simpl. lia.
Qed.

Lemma count_byte_layout n l :
  count is_byte_cell (repeat Blank n ++ map ByteCell l) = List.length l.
Proof.
  rewrite count_app. unfold count.
  replace (filter is_byte_cell (map ByteCell l)) with (map ByteCell l)
    by (induction l; simpl; congruence).
  replace (filter is_byte_cell (repeat Blank n)) with (@nil chunk)
    by (induction n; simpl; auto).
  now rewrite length_map.
Qed.

(** The cells of a whole block dump are the cells of its lines. *)
Lemma cells_of_dump B :
  filter is_cell ([BlockLine (getAddress B)] ++
                  flat_map (line_at B) (running_addresses B) ++
                  boundary_break B ++ [LineBreak]) =
  map (cell_at B) (running_addresses B).
Proof.
  rewrite !filter_app, cells_of_lines, boundary_break_no_cell.
  cbn. now rewrite app_nil_r.
Qed.

End Counting.

(** * The claims *)

(** C1, as amended.  For a content block whose buffer holds [getSize]
    bytes and whose end [getAddress + getSize] is a 64-bit address, the
    cells of the dump are: one blank cell for each address from the base
    rounded down to the line width up to the base, then one byte cell for
    each address of the block, showing the byte at that address.  So the
    dump holds [getAddress mod LineWidth] blank cells and exactly
    [getSize] byte cells; a blank cell is as wide as a byte cell. *)
Theorem C1_cells_match_block B :
  valid_block B -> isZeroFill B = false -> content_sized B -> no_wrap B ->
  exists out,
    printBlock B [] = Done (tt, out) /\
    filter is_cell out =
      map (cell_at B)
          (span (InitAddr B) (Z.to_nat (getAddress B - InitAddr B)) ++
           span (getAddress B) (Z.to_nat (getSize B))) /\
    (forall a, InitAddr B <= a < getAddress B -> cell_at B a = Blank) /\
    (forall a, getAddress B <= a < getAddress B + getSize B ->
       cell_at B a =
       ByteCell (nth (Z.to_nat (a - getAddress B)) (getContent B) x00)) /\
    filter is_cell out =
      repeat Blank (Z.to_nat (getAddress B - InitAddr B)) ++
      map ByteCell (getContent B) /\
    InitAddr B = LineWidth * (getAddress B / LineWidth) /\
    Z.of_nat (count is_blank out) = getAddress B - InitAddr B /\
    Z.of_nat (count is_byte_cell out) = getSize B /\
    (forall b, String.length (show (ByteCell b)) = String.length (show Blank)).
Proof.
  intros HB Hz Hc Hnw. eexists. split; [now apply printBlock_run |].
  pose proof (padding B HB) as Hp.
  pose proof (cells_no_wrap B HB Hc Hnw) as Hcells.
  assert (Hs : Z.to_nat (getSize B) = List.length (getContent B))
    by (unfold content_sized in Hc; lia).
  rewrite cells_of_dump. repeat split.
  - now rewrite Hs, <- running_no_wrap.
  - intros a Ha. apply cell_at_padding. lia.
  - intros a Ha. apply cell_at_content.
    destruct HB as [_ Hsz]. unfold U64.fits in Hsz. lia.
  - exact Hcells.
  - rewrite (InitAddr_rounds_down B HB). unfold LineWidth. lia.
  - unfold count. rewrite <- filter_blank_cells, cells_of_dump, Hcells.
    fold (count is_blank (repeat Blank (Z.to_nat (getAddress B - InitAddr B))
                            ++ map ByteCell (getContent B))).
    rewrite count_blank_layout. unfold LineWidth in *. lia.
  - unfold count. rewrite <- filter_byte_cells, cells_of_dump, Hcells.
    fold (count is_byte_cell
            (repeat Blank (Z.to_nat (getAddress B - InitAddr B))
               ++ map ByteCell (getContent B))).
    rewrite count_byte_layout. exact Hc.
Qed.

Lemma C1_cells_match_block_witness :
  exists out,
    printBlock (example_block x41 x42 x43 x44 x45) [] = Done (tt, out) /\
    Z.of_nat (count is_blank out) = 3 /\
    Z.of_nat (count is_byte_cell out) = 5.
Proof.
  destruct (C1_cells_match_block (example_block x41 x42 x43 x44 x45))
    as [out [Hrun [_ [_ [_ [_ [_ [Hblank [Hbyte _]]]]]]]]].
  - unfold valid_block, U64.fits, U64.modulus. simpl. lia.
  - reflexivity.
  - reflexivity.
  - unfold no_wrap, U64.modulus. simpl. lia.
  - exists out. repeat split; [exact Hrun | exact Hblank | exact Hbyte].
Defined.

(** C1 as stated fails on a block that wraps around the address space:
    of the 16 bytes of [wrapping_block] the dump shows only the 8 below
    2^64, and it pads with blank cells on both sides of them. *)
Lemma C1_wrapping_block_counterexample :
  valid_block wrapping_block /\
  isZeroFill wrapping_block = false /\
  content_sized wrapping_block /\
  exists out,
    printBlock wrapping_block [] = Done (tt, out) /\
    out = [BlockLine 18446744073709551608;
           LineHeader 18446744073709551600;
           Blank; Blank; Blank; Blank; Blank; Blank; Blank; Blank;
           ByteCell x00; ByteCell x01; ByteCell x02; ByteCell x03;
           ByteCell x04; ByteCell x05; ByteCell x06; ByteCell x07;
           LineBreak;
           LineHeader 0;
           Blank; Blank; Blank; Blank; Blank; Blank; Blank; Blank;
           LineBreak; LineBreak] /\
    count is_byte_cell out = 8%nat /\
    count is_blank out = 16%nat /\
    Z.of_nat (count is_byte_cell out) <> getSize wrapping_block.
Proof.
  split; [| split; [| split]].
  - unfold valid_block, U64.fits, U64.modulus. simpl. lia.
  - reflexivity.
  - reflexivity.
  - eexists. split; [vm_compute; reflexivity |].
    split; [reflexivity |].
    split; [reflexivity |]. split; [reflexivity |]. discriminate.
Qed.

(** C2.  In the dump of a content block, the iteration for the running
    address [a] writes an address header exactly when [a] is a multiple
    of [LineWidth], then its cell, then a line break exactly when [a] is
    [LineWidth - 1] modulo [LineWidth]; after the last iteration comes
    one more line break exactly when [getAddress + getSize] is not a
    multiple of [LineWidth].  (The final break of the block is C9's.) *)
Theorem C2_headers_and_breaks B :
  valid_block B -> isZeroFill B = false -> content_sized B ->
  exists out,
    printBlock B [] = Done (tt, out) /\
    out = [BlockLine (getAddress B)] ++
          flat_map (fun a => header_at a ++ [cell_at B a] ++ break_at a)
                   (running_addresses B) ++
          boundary_break B ++ [LineBreak] /\
    (forall a, (a mod LineWidth = 0 -> header_at a = [LineHeader a]) /\
               (a mod LineWidth <> 0 -> header_at a = [])) /\
    (forall a, (a mod LineWidth = LineWidth - 1 -> break_at a = [LineBreak]) /\
               (a mod LineWidth <> LineWidth - 1 -> break_at a = [])) /\
    (forall a, is_header (cell_at B a) = false /\
               is_break (cell_at B a) = false) /\
    ((getAddress B + getSize B) mod LineWidth <> 0 ->
       boundary_break B = [LineBreak]) /\
    ((getAddress B + getSize B) mod LineWidth = 0 ->
       boundary_break B = []) /\
    filter is_header out =
      map LineHeader
          (filter (fun a => a mod LineWidth =? 0) (running_addresses B)) /\
    Z.of_nat (count is_break out) =
      Z.of_nat (List.length (filter (fun a => a mod LineWidth =? LineWidth - 1)
                                    (running_addresses B))) +
      Z.of_nat (List.length (boundary_break B)) + 1.
Proof.
  intros HB Hz Hc. eexists. split; [now apply printBlock_run |].
  split; [reflexivity |].
  split; [| split; [| split; [| split; [| split; [| split]]]]].
  - intros a. unfold header_at.
    destruct (Z.eqb_spec (a mod LineWidth) 0); split; congruence.
  - intros a. unfold break_at.
    destruct (Z.eqb_spec (a mod LineWidth) (LineWidth - 1)); split; congruence.
  - apply cell_at_plain.
  - unfold boundary_break.
    destruct (Z.eqb_spec ((getAddress B + getSize B) mod LineWidth) 0);
      congruence.
  - unfold boundary_break. intros ->. reflexivity.
  - rewrite !filter_app, headers_of_lines.
    unfold boundary_break.
    destruct ((getAddress B + getSize B) mod LineWidth =? 0);
      cbn; now rewrite app_nil_r.
  - rewrite !count_app, breaks_of_lines.
    unfold boundary_break.
    destruct ((getAddress B + getSize B) mod LineWidth =? 0); cbn; lia.
Qed.

Lemma C2_headers_and_breaks_witness :
  exists out,
    printBlock (example_block x41 x42 x43 x44 x45) [] = Done (tt, out) /\
    filter is_header out = [LineHeader 4096] /\
    Z.of_nat (count is_break out) = 2.
Proof.
  destruct (C2_headers_and_breaks (example_block x41 x42 x43 x44 x45))
    as [out [Hrun [_ [_ [_ [_ [_ [_ [Hh Hb]]]]]]]]].
  - unfold valid_block, U64.fits, U64.modulus. simpl. lia.
  - reflexivity.
  - reflexivity.
  - exists out. split; [exact Hrun |]. split; [exact Hh | exact Hb].
Defined.

(** Without overflow the loop walks the addresses from [InitAddr] up to
    [getAddress + getSize]. *)
Lemma running_addresses_span B :
  valid_block B -> no_wrap B ->
  running_addresses B =
  span (InitAddr B) (Z.to_nat (getAddress B + getSize B - InitAddr B)).
Proof.
  intros HB Hnw.
  pose proof (InitAddr_rounds_down B HB) as Hi.
  pose proof (iterations_no_wrap B HB Hnw) as Hn.
  pose proof (InitAddr_fits B HB) as Hf.
  destruct HB as [Ha Hs].
  unfold no_wrap, U64.fits, LineWidth in *.
  unfold running_addresses. rewrite running_span by lia.
  f_equal. lia.
Qed.

(** C3.  The line width is 16; the dump of a content block starts at the
    base address rounded down to a multiple of the line width, computed
    as [getAddress & ~(LineWidth - 1)], and ends at [getAddress + getSize]
    (taken in 64 bits): when that sum is a 64-bit address the lines of
    the dump are those of the addresses from the one to the other. *)
Theorem C3_dump_bounds B :
  valid_block B ->
  LineWidth = 16 /\
  InitAddr B = Z.land (getAddress B) (U64.not (LineWidth - 1)) /\
  InitAddr B = LineWidth * (getAddress B / LineWidth) /\
  InitAddr B mod LineWidth = 0 /\
  InitAddr B <= getAddress B < InitAddr B + LineWidth /\
  EndAddr B = U64.wrap (getAddress B + getSize B) /\
  (no_wrap B -> EndAddr B = getAddress B + getSize B) /\
  (no_wrap B ->
     running_addresses B =
     span (InitAddr B) (Z.to_nat (getAddress B + getSize B - InitAddr B))) /\
  (isZeroFill B = false -> content_sized B -> no_wrap B ->
     printBlock B [] =
     Done (tt, [BlockLine (getAddress B)] ++
               flat_map (line_at B)
                 (span (InitAddr B)
                       (Z.to_nat (getAddress B + getSize B - InitAddr B))) ++
               boundary_break B ++ [LineBreak])).
Proof.
  intros HB.
  pose proof (InitAddr_rounds_down B HB) as Hi.
  pose proof (running_addresses_span B HB) as Hrun.
  split; [reflexivity |]. split; [reflexivity |].
  split; [unfold LineWidth in *; lia |].
  split; [unfold LineWidth in *; lia |].
  split; [unfold LineWidth in *; lia |].
  split; [reflexivity |].
  split; [| split; [exact Hrun |]].
  - intros Hnw. unfold EndAddr. apply wrap_small.
    destruct HB as [Ha Hs]. unfold no_wrap, U64.fits in *. lia.
  - intros Hz Hc Hnw. rewrite <- (Hrun Hnw). now apply printBlock_run.
Qed.

Lemma C3_dump_bounds_witness :
  InitAddr (example_block x41 x42 x43 x44 x45) = 4096 /\
  EndAddr (example_block x41 x42 x43 x44 x45) = 4104.
Proof.
  destruct (C3_dump_bounds (example_block x41 x42 x43 x44 x45))
    as [_ [Hi [_ [_ [_ [He _]]]]]].
  - unfold valid_block, U64.fits, U64.modulus. simpl. lia.
  - split; [rewrite Hi | rewrite He]; reflexivity.
Defined.

(** C4.  For a zero-filled block, whatever its size and whatever came
    before it, [printBlock] appends the block's address line and nothing
    else: no byte cell, no blank cell, no address header. *)
Theorem C4_zero_fill_block B s :
  isZeroFill B = true ->
  printBlock B s = Done (tt, s ++ [BlockLine (getAddress B)]) /\
  exists out,
    printBlock B [] = Done (tt, out) /\
    count is_byte_cell out = 0%nat /\
    count is_cell out = 0%nat /\
    count is_header out = 0%nat.
Proof.
  intros Hz. split; [now apply printBlock_zero_fill |].
  exists [BlockLine (getAddress B)].
  split; [now apply (printBlock_zero_fill B []) |].
  repeat split.
Qed.

Lemma C4_zero_fill_block_witness :
  printBlock (mkBlock 4099 4096 true []) [SectionLine "bss"] =
  Done (tt, [SectionLine "bss"; BlockLine 4099]).
Proof.
  apply (C4_zero_fill_block (mkBlock 4099 4096 true []) [SectionLine "bss"]).
  reflexivity.
Defined.

(** C5.  The block at 0x1003 of size 5: the dump line starts at 0x1000,
    three blank cells come first, then the five content bytes, nothing is
    written for 0x1008 and beyond, and there is one address header. *)
Theorem C5_worked_example b0 b1 b2 b3 b4 :
  InitAddr (example_block b0 b1 b2 b3 b4) = 4096 /\
  EndAddr (example_block b0 b1 b2 b3 b4) = 4104 /\
  running_addresses (example_block b0 b1 b2 b3 b4) =
    [4096; 4097; 4098; 4099; 4100; 4101; 4102; 4103] /\
  printBlock (example_block b0 b1 b2 b3 b4) [] =
  Done (tt, [BlockLine 4099;
             LineHeader 4096; Blank; Blank; Blank;
             ByteCell b0; ByteCell b1; ByteCell b2; ByteCell b3; ByteCell b4;
             LineBreak; LineBreak]).
Proof.
  repeat split.
Qed.

(** ** The end of a dump *)

Section DumpEnd.

Lemma running_snoc n : forall c,
  U64.fits c ->
  running c (S n) = running c n ++ [U64.wrap (c + Z.of_nat n)].
Proof.
  induction n as [| n IH]; intros c Hc.
  - simpl. now rewrite Z.add_0_r, wrap_small.
  - change (running c (S (S n)))
      with (c :: running (U64.wrap (c + 1)) (S n)).
    rewrite IH by apply wrap_fits.
    cbn [running app]. do 3 f_equal.
    unfold U64.wrap. rewrite Zplus_mod_idemp_l. f_equal. lia.
Qed.

Lemma last_address B n :
  valid_block B -> iterations B = S n ->
  U64.wrap (InitAddr B + Z.of_nat n) = U64.wrap (EndAddr B - 1).
Proof.
  intros HB Hn. pose proof (iterations_distance B) as Hd.
  rewrite Hn in Hd. pose proof (InitAddr_fits B HB) as Hi.
  pose proof (EndAddr_fits B) as He.
  unfold U64.wrap, U64.fits, U64.modulus in *. lia.
Qed.

Lemma text_ends_with_break s :
  ends_line s -> exists t, text s = (t ++ nl)%string.
Proof.
  unfold ends_line. generalize (text s) as str.
  induction str as [| ch str IH]; [discriminate |].
  destruct str as [| ch' str'].
  - simpl. intros [= ->]. now exists EmptyString.
  - intros H. destruct (IH H) as [t Ht]. exists (String ch t).
    simpl. now rewrite <- Ht.
Qed.

Lemma text_single c : text [c] = show c.
Proof.
  cbn [text]. induction (show c) as [| ch str IH]; [reflexivity |].
  simpl. now rewrite IH.
Qed.

Lemma block_line_ends_line a : ends_line [BlockLine a].
Proof.
  unfold ends_line. rewrite text_single. cbn [show].
  rewrite !last_char_app; try discriminate. reflexivity.
Qed.

(** Whatever the dump of a block holds, it ends at the end of a line. *)
Lemma dump_ends_line B :
  valid_block B ->
  ends_line ([BlockLine (getAddress B)] ++
             flat_map (line_at B) (running_addresses B) ++
             boundary_break B).
Proof.
  intros HB. unfold boundary_break.
  destruct (Z.eqb_spec ((getAddress B + getSize B) mod LineWidth) 0) as [E | E].
  - rewrite app_nil_r. unfold running_addresses.
    destruct (iterations B) as [| n] eqn:Hn.
    + apply block_line_ends_line.
    + rewrite running_snoc by now apply InitAddr_fits.
      rewrite flat_map_app. cbn [flat_map]. rewrite app_nil_r.
      rewrite (last_address B n HB Hn).
      unfold line_at at 2, break_at.
      assert (H15 : U64.wrap (EndAddr B - 1) mod LineWidth = LineWidth - 1).
      { rewrite <- EndAddr_mod in E. pose proof (EndAddr_fits B) as He.
        unfold U64.wrap, U64.fits, U64.modulus, LineWidth in *. lia. }
      rewrite H15, Z.eqb_refl.
      rewrite !app_assoc. apply ends_line_break.
  - rewrite !app_assoc. apply ends_line_break.
Qed.

End DumpEnd.

(** C8.  On a content block whose buffer holds [getSize] bytes and whose
    end [getAddress + getSize] does not overflow, the loop reads the
    buffer at the offset [CurAddr - getAddress] for the running addresses
    from [getAddress] up to [getAddress + getSize], each of them inside
    the buffer, and the block is rendered to its end without a fault.
    A fault is an out-of-range read and no other error exists: the loop
    never runs out of iterations. *)
Theorem C8_reads_in_bounds B s :
  valid_block B -> isZeroFill B = false -> content_sized B -> no_wrap B ->
  (forall a, In a (running_addresses B) -> StartAddr B <= a ->
     getAddress B <= a < getAddress B + getSize B /\
     offset B a = a - getAddress B /\
     in_bounds B a) /\
  (forall a, getAddress B <= a < getAddress B + getSize B ->
     In a (running_addresses B) /\
     nth_error (getContent B) (Z.to_nat (offset B a)) <> None) /\
  (exists out, printBlock B s = Done (tt, s ++ out)) /\
  (forall f, printBlock B s <> Fault f) /\
  printBlock B s <> OutOfFuel.
Proof.
  intros HB Hz Hc Hnw.
  pose proof (running_no_wrap B HB Hc Hnw) as Hrun.
  pose proof (padding B HB) as Hp.
  assert (Hdone : printBlock B s =
     Done (tt, s ++ [BlockLine (getAddress B)] ++
                    flat_map (line_at B) (running_addresses B) ++
                    boundary_break B ++ [LineBreak])).
  { rewrite (appending_printBlock B s), printBlock_run by assumption.
    reflexivity. }
  assert (Hoff : forall a, getAddress B <= a < getAddress B + getSize B ->
                           offset B a = a - getAddress B).
  { intros a Ha. unfold offset, StartAddr. apply wrap_small.
    destruct HB as [Hb Hs]. unfold U64.fits in *. lia. }
  split; [| split; [| split; [| split]]].
  - intros a Hin Hge. unfold StartAddr in Hge.
    assert (Ha : getAddress B <= a < getAddress B + getSize B).
    { rewrite Hrun in Hin. apply in_app_or in Hin.
      destruct Hin as [Hin | Hin]; apply span_In in Hin;
        unfold content_sized, LineWidth in *; lia. }
    split; [exact Ha |]. split; [now apply Hoff |].
    unfold in_bounds. rewrite (Hoff a Ha).
    unfold content_sized in Hc. lia.
  - intros a Ha. split.
    + rewrite Hrun. apply in_or_app. right. apply span_In.
      unfold content_sized in Hc. lia.
    + rewrite (Hoff a Ha). apply nth_error_Some.
      unfold content_sized in Hc. lia.
  - eexists. exact Hdone.
  - intros f. rewrite Hdone. discriminate.
  - rewrite Hdone. discriminate.
Qed.

Lemma C8_reads_in_bounds_witness :
  exists out,
    printBlock (example_block x41 x42 x43 x44 x45) [SectionLine "text"] =
    Done (tt, [SectionLine "text"] ++ out).
Proof.
  apply (C8_reads_in_bounds (example_block x41 x42 x43 x44 x45)
                            [SectionLine "text"]).
  - unfold valid_block, U64.fits, U64.modulus. simpl. lia.
  - reflexivity.
  - reflexivity.
  - unfold no_wrap, U64.modulus. simpl. lia.
Defined.

(** C9.  The dump of a content block always ends with one more line
    break, written after the dump proper, which itself always ends at the
    end of a line (at the boundary break, at the break that closes a full
    line, or at the block's address line when nothing was dumped): the
    text of the block ends with an empty line. *)
Theorem C9_blank_line_after_dump B :
  valid_block B -> isZeroFill B = false -> content_sized B ->
  exists pre,
    printBlock B [] = Done (tt, pre ++ [LineBreak]) /\
    pre = [BlockLine (getAddress B)] ++
          flat_map (line_at B) (running_addresses B) ++
          boundary_break B /\
    ends_line pre /\
    exists t, text (pre ++ [LineBreak]) = (t ++ nl ++ nl)%string.
Proof.
  intros HB Hz Hc.
  exists ([BlockLine (getAddress B)] ++
          flat_map (line_at B) (running_addresses B) ++ boundary_break B).
  split; [| split; [reflexivity | split]].
  - rewrite printBlock_run by assumption. now rewrite <- !app_assoc.
  - now apply dump_ends_line.
  - destruct (text_ends_with_break _ (dump_ends_line B HB)) as [t Ht].
    exists t. rewrite text_app, Ht, text_single. cbn [show].
    apply string_app_assoc.
Qed.

Lemma C9_blank_line_after_dump_witness :
  exists pre,
    printBlock (example_block x41 x42 x43 x44 x45) [] =
    Done (tt, pre ++ [LineBreak]) /\ ends_line pre.
Proof.
  destruct (C9_blank_line_after_dump (example_block x41 x42 x43 x44 x45))
    as [pre [Hrun [_ [Hend _]]]].
  - unfold valid_block, U64.fits, U64.modulus. simpl. lia.
  - reflexivity.
  - reflexivity.
  - exists pre. split; assumption.
Defined.

(** C10.  A content block of size 0.  When its base is not a multiple of
    16 the dump still holds one address header (for the base rounded
    down), one blank cell for each address from there up to the base, and
    the boundary line break, before the final break of every dump; when
    its base is a multiple of 16 nothing but the address line of the block
    and that final break is written. *)
Theorem C10_empty_block B s :
  U64.fits (getAddress B) -> getSize B = 0 -> isZeroFill B = false ->
  (getAddress B mod 16 <> 0 ->
     printBlock B s =
     Done (tt, s ++ [BlockLine (getAddress B);
                     LineHeader (getAddress B - getAddress B mod 16)] ++
                    repeat Blank (Z.to_nat (getAddress B mod 16)) ++
                    [LineBreak; LineBreak])) /\
  (getAddress B mod 16 = 0 ->
     printBlock B s = Done (tt, s ++ [BlockLine (getAddress B); LineBreak])).
Proof.
  intros Ha Hs Hz.
  assert (HB : valid_block B).
  { split; [exact Ha |]. rewrite Hs. unfold U64.fits, U64.modulus. lia. }
  assert (Hnw : no_wrap B).
  { unfold no_wrap, U64.fits in *. lia. }
  pose proof (running_addresses_span B HB Hnw) as Hrun.
  pose proof (InitAddr_rounds_down B HB) as Hi. unfold LineWidth in Hi.
  rewrite Hs, Z.add_0_r, Hi in Hrun.
  replace (getAddress B - (getAddress B - getAddress B mod 16))
    with (getAddress B mod 16) in Hrun by lia.
  assert (Hdump : printBlock B [] =
     Done (tt, [BlockLine (getAddress B)] ++
               flat_map (line_at B) (running_addresses B) ++
               boundary_break B ++ [LineBreak])).
  { apply printBlock_dump; auto.
    intros a Hin Hge. rewrite Hrun in Hin. apply span_In in Hin.
    unfold StartAddr in Hge. lia. }
  rewrite (appending_printBlock B s), Hdump. cbn [after].
  unfold boundary_break. rewrite Hs, Z.add_0_r, Hrun. unfold LineWidth.
  split; intros Hm.
  - destruct (Z.eqb_spec (getAddress B mod 16) 0) as [E | _]; [contradiction |].
    destruct (Z.to_nat (getAddress B mod 16)) as [| p] eqn:Hp; [lia |].
    rewrite span_cons. cbn [flat_map].
    rewrite (flat_map_single _ Blank).
    + rewrite span_length.
      unfold line_at, header_at, break_at, LineWidth.
      replace ((getAddress B - getAddress B mod 16) mod 16) with 0 by lia.
      rewrite cell_at_padding by lia. reflexivity.
    + intros a Hin. apply span_In in Hin.
      unfold line_at, header_at, break_at, LineWidth.
      rewrite cell_at_padding by lia.
      destruct (Z.eqb_spec (a mod 16) 0); [lia |].
      destruct (Z.eqb_spec (a mod 16) (16 - 1)); [lia |].
      reflexivity.
  - rewrite Hm. reflexivity.
Qed.

Lemma C10_empty_block_witness :
  printBlock (mkBlock 4099 0 false []) [] =
  Done (tt, [BlockLine 4099; LineHeader 4096; Blank; Blank; Blank;
             LineBreak; LineBreak]) /\
  printBlock (mkBlock 4096 0 false []) [] =
  Done (tt, [BlockLine 4096; LineBreak]).
Proof.
  split.
  - apply (C10_empty_block (mkBlock 4099 0 false []) []).
    + unfold U64.fits, U64.modulus. simpl. lia.
    + reflexivity.
    + reflexivity.
    + discriminate.
  - apply (C10_empty_block (mkBlock 4096 0 false []) []).
    + unfold U64.fits, U64.modulus. simpl. lia.
    + reflexivity.
    + reflexivity.
    + reflexivity.
Defined.

(** ** Rendering a whole graph *)

Section Graph.

Lemma for_each_done {A} (l : list A) (body : A -> M unit) :
  (forall x, appending (body x)) ->
  (forall x, In x l -> exists o, body x [] = Done (tt, o)) ->
  exists o, for_each l body [] = Done (tt, o).
Proof.
  intros Happ. induction l as [| x l IH]; intros Hdone.
  - now exists [].
  - destruct (Hdone x (or_introl eq_refl)) as [o Ho].
    destruct IH as [o' Ho']; [intros y Hy; apply Hdone; now right |].
    exists (o ++ o'). cbn [for_each].
    rewrite (bind_run _ _ tt o Ho), Ho'; [reflexivity |].
    now apply appending_for_each.
Qed.

Lemma printBlock_done B :
  block_ok B -> exists o, printBlock B [] = Done (tt, o).
Proof.
  intros [HB Hc]. destruct (isZeroFill B) eqn:Hz.
  - eexists. now apply printBlock_zero_fill.
  - eexists. apply printBlock_run; auto.
Qed.

Lemma printSection_done S :
  Forall block_ok (blocks S) -> exists o, printSection S [] = Done (tt, o).
Proof.
  intros Hok. unfold printSection.
  destruct (for_each_done (blocks S) printBlock appending_printBlock)
    as [o Ho].
  - intros B HB. apply printBlock_done.
    now apply (proj1 (Forall_forall _ _) Hok).
  - exists ([SectionLine (getName S)] ++ o).
    rewrite (bind_run _ _ tt [SectionLine (getName S)]), Ho;
      [reflexivity | reflexivity |].
    apply appending_for_each, appending_printBlock.
Qed.

(** On a well-formed graph the renderer runs to its end. *)
Lemma printLinkGraph_done G Title :
  graph_ok G -> exists o, printLinkGraph G Title [] = Done (tt, o).
Proof.
  intros Hok. unfold printLinkGraph.
  destruct (for_each_done (sections G) printSection appending_printSection)
    as [o Ho].
  - intros S HS. apply printSection_done.
    now apply (proj1 (Forall_forall _ _) Hok).
  - exists ([TitleLine Title] ++ o).
    rewrite (bind_run _ _ tt [TitleLine Title]), Ho;
      [reflexivity | reflexivity |].
    apply appending_for_each, appending_printSection.
Qed.

Lemma for_each_no_timeout {A} (l : list A) (body : A -> M unit) :
  (forall x s, In x l -> body x s <> OutOfFuel) ->
  forall s, for_each l body s <> OutOfFuel.
Proof.
  induction l as [| x l IH]; intros Hb s; [discriminate |].
  cbn [for_each]. unfold bind.
  destruct (body x s) as [[[] s'] | f |] eqn:Hx.
  - apply IH. intros y t Hy. apply Hb. now right.
  - discriminate.
  - apply Hb in Hx; [contradiction | now left].
Qed.

(** The renderer comes to an end on every graph whose addresses and
    sizes are 64-bit values: it is done, or it stops at a fault. *)
Lemma printLinkGraph_no_timeout G Title s :
  Forall (fun S => Forall valid_block (blocks S)) (sections G) ->
  printLinkGraph G Title s <> OutOfFuel.
Proof.
  intros Hok. unfold printLinkGraph, bind at 1, emit.
  apply for_each_no_timeout. intros S t HS.
  unfold printSection, bind at 1, emit.
  apply for_each_no_timeout. intros B u HB.
  apply printBlock_no_timeout.
  pose proof (proj1 (Forall_forall _ _) Hok S HS) as HSok.
  now apply (proj1 (Forall_forall _ _) HSok).
Qed.

Lemma pass_keeps_graph G Title s e G' s' :
  (printLinkGraph G Title ;; ret (Orc.success, G)) s = Done ((e, G'), s') ->
  G' = G /\ e = Orc.success /\
  printLinkGraph G Title s = Done (tt, s').
Proof.
  unfold bind, ret.
  destruct (printLinkGraph G Title s) as [[[] o] | f |]; [| discriminate ..].
  intros [= <- <- <-]. repeat split.
Qed.

End Graph.

(** C6.  Rendering does not depend on what is already on the stream: on
    any stream it appends what it writes on the empty one (or stops at the
    same fault), so two calls on the same graph with the same title write
    the same characters.  The graph is only read: the two passes of the
    plugin hand back the graph they were given, with success. *)
Theorem C6_render_is_repeatable G Title s1 s2 :
  printLinkGraph G Title s1 = after s1 (printLinkGraph G Title []) /\
  printLinkGraph G Title s2 = after s2 (printLinkGraph G Title []) /\
  (forall out,
     printLinkGraph G Title [] = Done (tt, out) ->
     (printLinkGraph G Title ;; printLinkGraph G Title) s1 =
       Done (tt, s1 ++ out ++ out) /\
     text (s1 ++ out ++ out) = (text s1 ++ text out ++ text out)%string) /\
  (graph_ok G -> exists out, printLinkGraph G Title [] = Done (tt, out)) /\
  (forall e G' s',
     beforeFixupPass G s1 = Done ((e, G'), s') ->
     G' = G /\ e = Orc.success) /\
  (forall e G' s',
     afterFixupPass G s1 = Done ((e, G'), s') ->
     G' = G /\ e = Orc.success).
Proof.
  split; [apply appending_printLinkGraph |].
  split; [apply appending_printLinkGraph |].
  split; [| split; [apply printLinkGraph_done | split]].
  - intros out Hout. split.
    + unfold bind. rewrite (appending_printLinkGraph G Title s1), Hout.
      cbn [after]. rewrite (appending_printLinkGraph G Title (s1 ++ out)), Hout.
      cbn [after]. now rewrite app_assoc.
    + now rewrite !text_app.
  - intros e G' s' H. apply pass_keeps_graph in H. tauto.
  - intros e G' s' H. apply pass_keeps_graph in H. tauto.
Qed.

Lemma C6_render_is_repeatable_witness :
  exists out,
    printLinkGraph example_graph "Before fixup:" [] = Done (tt, out) /\
    (printLinkGraph example_graph "Before fixup:" ;;
     printLinkGraph example_graph "Before fixup:") [] =
    Done (tt, out ++ out).
Proof.
  destruct (C6_render_is_repeatable example_graph "Before fixup:" [] [])
    as [_ [_ [Htwice [Hdone _]]]].
  destruct Hdone as [out Hout].
  - repeat constructor;
      try (unfold U64.fits, U64.modulus; simpl; lia);
      try discriminate; intros _; reflexivity.
  - exists out. split; [exact Hout |].
    exact (proj1 (Htwice out Hout)).
Defined.

(** ** Configuring the passes *)

Section Configuration.

Variable MR : Orc.MaterializationResponsibility.
Variable TT : Orc.Triple.

Lemma configurePasses_snoc Ps P Config :
  Orc.configurePasses (Ps ++ [P]) MR TT Config =
  Orc.modifyPassConfig P MR TT (Orc.configurePasses Ps MR TT Config).
Proof. unfold Orc.configurePasses. now rewrite fold_left_app. Qed.

Lemma plugin_contributes :
  contributes plugin MR TT [beforeFixupPass] [afterFixupPass].
Proof. intros Config. reflexivity. Qed.

Lemma configurePasses_contributions Ps : forall cs Config,
  Forall2 (fun P c => contributes P MR TT (fst c) (snd c)) Ps cs ->
  Orc.configurePasses Ps MR TT Config =
  Orc.mkPassConfiguration
    (Orc.PostPrunePasses Config ++ List.concat (map fst cs))
    (Orc.PostFixupPasses Config ++ List.concat (map snd cs)).
Proof.
  induction Ps as [| P Ps IH]; intros cs Config H; inversion H; subst.
  - simpl. rewrite !app_nil_r. now destruct Config.
  - cbn [Orc.configurePasses fold_left].
    fold (Orc.configurePasses Ps MR TT (Orc.modifyPassConfig P MR TT Config)).
    rewrite (IH _ _ H4), H2. cbn. now rewrite <- !app_assoc.
Qed.

End Configuration.




(** * Further properties of the renderer *)

(** ** The rendering of a graph, section by section *)

Section GraphDump.

Lemma for_each_run {A} (l : list A) (body : A -> M unit) (f : A -> stream) :
  (forall x, appending (body x)) ->
  (forall x, In x l -> body x [] = Done (tt, f x)) ->
  for_each l body [] = Done (tt, flat_map f l).
Proof.
  intros Happ. induction l as [| x l IH]; intros Hrun; [reflexivity |].
  cbn [for_each flat_map].
  rewrite (bind_run _ _ tt (f x)).
  - rewrite IH; [reflexivity |]. intros y Hy. apply Hrun. now right.
  - apply Hrun. now left.
  - now apply appending_for_each.
Qed.

Lemma printBlock_block_dump B :
  block_ok B -> printBlock B [] = Done (tt, block_dump B).
Proof.
  intros [HB Hc]. unfold block_dump. destruct (isZeroFill B) eqn:Hz.
  - now apply (printBlock_zero_fill B []).
  - now apply printBlock_run; auto.
Qed.

Lemma printSection_section_dump S :
  Forall block_ok (blocks S) -> printSection S [] = Done (tt, section_dump S).
Proof.
  intros Hok. unfold printSection, section_dump.
  rewrite (bind_run _ _ tt [SectionLine (getName S)]); [| reflexivity |].
  - rewrite (for_each_run _ _ block_dump); [reflexivity | |].
    + apply appending_printBlock.
    + intros B HB. apply printBlock_block_dump.
      now apply (proj1 (Forall_forall _ _) Hok).
  - apply appending_for_each, appending_printBlock.
Qed.

Lemma printLinkGraph_graph_dump G Title s :
  graph_ok G ->
  printLinkGraph G Title s = Done (tt, s ++ TitleLine Title :: graph_dump G).
Proof.
  intros Hok. rewrite (appending_printLinkGraph G Title s).
  unfold printLinkGraph, graph_dump.
  rewrite (bind_run _ _ tt [TitleLine Title]); [| reflexivity |].
  - rewrite (for_each_run _ _ section_dump); [reflexivity | |].
    + apply appending_printSection.
    + intros S HS. apply printSection_section_dump.
      now apply (proj1 (Forall_forall _ _) Hok).
  - apply appending_for_each, appending_printSection.
Qed.

End GraphDump.

(** X1.  On a well-formed graph the renderer writes the title line, then
    for each section in iteration order its name line followed by the
    dumps of its blocks in iteration order: nothing is sorted, merged or
    left out, and the title shows in the first line only. *)
Theorem X1_graph_rendering G Title s :
  graph_ok G ->
  printLinkGraph G Title s =
  Done (tt, s ++ TitleLine Title ::
            flat_map (fun S => SectionLine (getName S) ::
                               flat_map block_dump (blocks S))
                     (sections G)).
Proof. apply printLinkGraph_graph_dump. Qed.

Lemma X1_graph_rendering_witness :
  printLinkGraph example_graph "T" [] =
  Done (tt, [TitleLine "T";
             SectionLine "__text"; BlockLine 4099; LineHeader 4096;
             Blank; Blank; Blank;
             ByteCell x41; ByteCell x42; ByteCell x43; ByteCell x44;
             ByteCell x45; LineBreak; LineBreak;
             SectionLine "__bss"; BlockLine 8192]).
Proof.
  apply (X1_graph_rendering example_graph "T" []).
  repeat constructor;
    try (unfold U64.fits, U64.modulus; simpl; lia);
    try discriminate; intros _; reflexivity.
Defined.



(** ** The lines of a dump *)

Section DumpLines.

Variable B : Block.

Lemma line_at_first a :
  a mod LineWidth = 0 -> line_at B a = [LineHeader a; cell_at B a].
Proof.
  intros H. unfold line_at, header_at, break_at. rewrite H.
  reflexivity.
Qed.

Lemma line_at_last a :
  a mod LineWidth = LineWidth - 1 -> line_at B a = [cell_at B a; LineBreak].
Proof.
  intros H. unfold line_at, header_at, break_at. rewrite H.
  reflexivity.
Qed.

Lemma line_at_inner a :
  a mod LineWidth <> 0 -> a mod LineWidth <> LineWidth - 1 ->
  line_at B a = [cell_at B a].
Proof.
  intros H0 H15. unfold line_at, header_at, break_at.
  destruct (Z.eqb_spec (a mod LineWidth) 0); [contradiction |].
  destruct (Z.eqb_spec (a mod LineWidth) (LineWidth - 1)); [contradiction |].
  reflexivity.
Qed.

Lemma inner_cells l :
  (forall a, In a l ->
     a mod LineWidth <> 0 /\ a mod LineWidth <> LineWidth - 1) ->
  flat_map (line_at B) l = map (cell_at B) l.
Proof.
  induction l as [| a l IH]; intros H; [reflexivity |].
  cbn [flat_map map].
  destruct (H a (or_introl eq_refl)) as [H0 H15].
  rewrite (line_at_inner a H0 H15), IH; [reflexivity |].
  intros x Hx. apply H. now right.
Qed.

(** A line that starts on a boundary and stops before the next one. *)
Lemma partial_line c k :
  c mod LineWidth = 0 -> (0 < k < 16)%nat ->
  flat_map (line_at B) (span c k) =
  LineHeader c :: map (cell_at B) (span c k).
Proof.
  intros Hc Hk. destruct k as [| k]; [lia |].
  rewrite span_cons. cbn [flat_map map].
  rewrite (line_at_first c Hc), inner_cells; [reflexivity |].
  intros a Ha. apply span_In in Ha. unfold LineWidth in *. lia.
Qed.

Lemma full_line c :
  c mod LineWidth = 0 ->
  flat_map (line_at B) (span c 16) = dump_line B c 16.
Proof.
  intros Hc. unfold dump_line.
  change 16%nat with (15 + 1)%nat. rewrite span_app, flat_map_app, map_app.
  rewrite partial_line by (auto; lia).
  rewrite span_cons. cbn [span seq map flat_map].
  rewrite line_at_last by (unfold LineWidth in *; lia).
  reflexivity.
Qed.

Lemma flat_map_shift {C} (f : nat -> list C) m :
  flat_map f (seq 1 m) = flat_map (fun j => f (S j)) (seq 0 m).
Proof.
  rewrite <- seq_shift. generalize (seq 0 m) as l.
  induction l as [| j l IH]; [reflexivity |].
  cbn [map flat_map]. now rewrite IH.
Qed.

(** Any stretch that starts on a boundary: full lines, then what is left
    of the last one, still open. *)
Lemma lines_of_span m : forall c r,
  c mod LineWidth = 0 -> (r < 16)%nat ->
  flat_map (line_at B) (span c (16 * m + r)) =
  flat_map (fun j => dump_line B (c + 16 * Z.of_nat j) 16) (seq 0 m) ++
  (if (r =? 0)%nat then []
   else LineHeader (c + 16 * Z.of_nat m) ::
        map (cell_at B) (span (c + 16 * Z.of_nat m) r)).
Proof.
  induction m as [| m IH]; intros c r Hc Hr.
  - rewrite Nat.mul_0_r, Z.mul_0_r, Z.add_0_r. cbn [Nat.add seq flat_map app].
    destruct r as [| r]; [reflexivity |].
    cbn [Nat.eqb]. apply partial_line; auto. lia.
  - replace (16 * S m + r)%nat with (16 + (16 * m + r))%nat by lia.
    rewrite span_app, flat_map_app, (full_line c Hc).
    rewrite IH by (auto; unfold LineWidth in *; lia).
    cbn [seq flat_map]. rewrite flat_map_shift.
    rewrite Z.mul_0_r, Z.add_0_r, <- app_assoc. f_equal.
    replace (c + Z.of_nat 16 + 16 * Z.of_nat m)
      with (c + 16 * Z.of_nat (S m)) by lia.
    f_equal. apply flat_map_ext. intros j. f_equal. lia.
Qed.

End DumpLines.

(** X3.  The dump of a content block whose end does not overflow, line by
    line.  With [n = getAddress mod 16 + getSize] cells to write from the
    rounded-down base: [n / 16] full lines, each the header of its
    16-aligned address, sixteen cells and a line break; then, when [n] is
    not a multiple of 16, one last line of [n mod 16] cells with its
    header and its line break; then the empty line. *)
Theorem X3_dump_line_by_line B :
  valid_block B -> isZeroFill B = false -> content_sized B -> no_wrap B ->
  let n := Z.to_nat (getAddress B mod 16 + getSize B) in
  printBlock B [] =
  Done (tt,
        [BlockLine (getAddress B)] ++
        flat_map (fun j => dump_line B (InitAddr B + 16 * Z.of_nat j) 16)
                 (seq 0 (n / 16)) ++
        (if (n mod 16 =? 0)%nat then []
         else dump_line B (InitAddr B + 16 * Z.of_nat (n / 16)) (n mod 16)) ++
        [LineBreak]).
Proof.
  intros HB Hz Hc Hnw n.
  rewrite printBlock_run by assumption. do 3 f_equal.
  pose proof (InitAddr_rounds_down B HB) as Hi.
  pose proof (iterations_no_wrap B HB Hnw) as Hn.
  assert (Hi0 : InitAddr B mod LineWidth = 0)
    by (unfold LineWidth in *; lia).
  assert (Hpos : 0 <= getAddress B mod 16 + getSize B).
  { destruct HB as [Ha Hs]. unfold U64.fits in *. lia. }
  rewrite running_addresses_span by assumption.
  replace (Z.to_nat (getAddress B + getSize B - InitAddr B)) with n
    by (unfold LineWidth in *; lia).
  rewrite (Nat.div_mod_eq n 16) at 1.
  rewrite lines_of_span by (auto; apply Nat.mod_upper_bound; lia).
  rewrite <- app_assoc. f_equal.
  unfold boundary_break, dump_line.
  assert (Hr : Z.of_nat (n mod 16) = (getAddress B + getSize B) mod 16).
  { rewrite Nat2Z.inj_mod. unfold n. rewrite Z2Nat.id by exact Hpos.
    unfold LineWidth in *. change (Z.of_nat 16) with 16. lia. }
  unfold LineWidth.
  destruct (Nat.eqb_spec (n mod 16) 0) as [E | E];
    destruct (Z.eqb_spec ((getAddress B + getSize B) mod 16) 0) as [E' | E'];
    try lia; [reflexivity |].
  cbn. now rewrite <- app_assoc.
Qed.

Lemma X3_dump_line_by_line_witness :
  printBlock (example_block x41 x42 x43 x44 x45) [] =
  Done (tt, [BlockLine 4099] ++
            dump_line (example_block x41 x42 x43 x44 x45) 4096 8 ++
            [LineBreak]).
Proof.
  apply (X3_dump_line_by_line (example_block x41 x42 x43 x44 x45)).
  - unfold valid_block, U64.fits, U64.modulus. simpl. lia.
  - reflexivity.
  - reflexivity.
  - unfold no_wrap, U64.modulus. simpl. lia.
Defined.

(** ** Counting the lines of a dump *)

Section LineCount.

Lemma wrap_mod_line z : U64.wrap z mod LineWidth = z mod LineWidth.
Proof. unfold U64.wrap, U64.modulus, LineWidth. lia. Qed.

(** How many of [n] running addresses from [c] open a line, and how many
    close one. *)
Lemma running_boundaries n : forall c,
  U64.fits c ->
  Z.of_nat (List.length
              (filter (fun a => a mod LineWidth =? 0) (running c n))) =
    (c mod 16 + Z.of_nat n + 15) / 16 - (c mod 16 + 15) / 16 /\
  Z.of_nat (List.length
              (filter (fun a => a mod LineWidth =? LineWidth - 1)
                      (running c n))) =
    (c mod 16 + Z.of_nat n) / 16 - (c mod 16) / 16.
Proof.
  induction n as [| n IH]; intros c Hc.
  - cbn [running filter List.length]. rewrite !Z.add_0_r. lia.
  - destruct (IH c Hc) as [IH0 IH15].
    rewrite (running_snoc n c Hc), !filter_app, !length_app, !Nat2Z.inj_add.
    rewrite IH0, IH15. cbn [filter].
    rewrite (wrap_mod_line (c + Z.of_nat n)). unfold LineWidth.
    destruct (Z.eqb_spec ((c + Z.of_nat n) mod 16) 0);
      destruct (Z.eqb_spec ((c + Z.of_nat n) mod 16) (16 - 1));
      cbn [List.length]; lia.
Qed.

End LineCount.

(** X4.  In the dump of a content block every line that is opened is
    closed: there is one line break for each address header, and one more
    for the empty line at the end.  This holds whether or not the block
    wraps around the address space.  The number of lines is the number of
    running addresses divided by 16 and rounded up; without overflow that
    is [(getAddress mod 16 + getSize + 15) / 16]. *)
Theorem X4_lines_are_closed B :
  valid_block B -> isZeroFill B = false -> content_sized B ->
  exists out,
    printBlock B [] = Done (tt, out) /\
    count is_break out = S (count is_header out) /\
    Z.of_nat (count is_header out) = (Z.of_nat (iterations B) + 15) / 16 /\
    (no_wrap B ->
     Z.of_nat (count is_header out) =
     (getAddress B mod 16 + getSize B + 15) / 16).
Proof.
  intros HB Hz Hc. eexists. split; [now apply printBlock_run |].
  pose proof (InitAddr_rounds_down B HB) as Hi.
  pose proof (InitAddr_fits B HB) as Hf.
  destruct (running_boundaries (iterations B) (InitAddr B) Hf) as [H0 H15].
  fold (running_addresses B) in H0, H15.
  pose proof (iterations_distance B) as Hd.
  pose proof (EndAddr_fits B) as He.
  pose proof (EndAddr_mod B) as Hm.
  assert (Hh : Z.of_nat
                 (count is_header
                    ([BlockLine (getAddress B)] ++
                     flat_map (line_at B) (running_addresses B) ++
                     boundary_break B ++ [LineBreak])) =
               (Z.of_nat (iterations B) + 15) / 16).
  { unfold count. rewrite !filter_app, headers_of_lines.
    replace (filter is_header (boundary_break B)) with (@nil chunk)
      by (unfold boundary_break; now destruct (_ =? 0)).
    cbn [filter is_header app]. rewrite app_nil_r, length_map, H0.
    unfold LineWidth in *. lia. }
  assert (Hb : Z.of_nat
                 (count is_break
                    ([BlockLine (getAddress B)] ++
                     flat_map (line_at B) (running_addresses B) ++
                     boundary_break B ++ [LineBreak])) =
               (Z.of_nat (iterations B) + 15) / 16 + 1).
  { rewrite !count_app, breaks_of_lines, !Nat2Z.inj_add, H15.
    unfold boundary_break.
    unfold U64.wrap, U64.fits, U64.modulus, LineWidth in *.
    destruct (Z.eqb_spec ((getAddress B + getSize B) mod 16) 0);
      cbn; lia. }
  split; [lia |]. split; [exact Hh |].
  intros Hnw. rewrite Hh, (iterations_no_wrap B HB Hnw).
  reflexivity.
Qed.

Lemma X4_lines_are_closed_witness :
  exists out,
    printBlock wrapping_block [] = Done (tt, out) /\
    count is_break out = S (count is_header out) /\
    Z.of_nat (count is_header out) = 2.
Proof.
  destruct (X4_lines_are_closed wrapping_block)
    as [out [Hrun [Hb [Hh _]]]].
  - unfold valid_block, U64.fits, U64.modulus. simpl. lia.
  - reflexivity.
  - reflexivity.
  - exists out. split; [exact Hrun |]. split; [exact Hb |].
    rewrite Hh. reflexivity.
Defined.

(** ** The buffer and the declared size *)

Section BufferAndSize.

Variable B : Block.

(** The loop never asks for an offset at or beyond [getSize], wrap-around
    or not. *)
Lemma running_offset_below_size a :
  valid_block B ->
  In a (running_addresses B) -> StartAddr B <= a ->
  0 <= offset B a < getSize B.
Proof.
  intros HB Hin Hge.
  unfold running_addresses in Hin.
  apply running_In in Hin; [| now apply InitAddr_fits].
  pose proof (iterations_distance B) as Hd.
  pose proof (InitAddr_rounds_down B HB) as Hi.
  unfold offset in *.
  destruct HB as [Ha Hs].
  unfold EndAddr, StartAddr, U64.wrap, U64.fits, U64.modulus, LineWidth in *.
  destruct Hin as [k [Hk ->]]. lia.
Qed.

Lemma flat_map_ext_in {A C} (f g : A -> list C) l :
  (forall x, In x l -> f x = g x) -> flat_map f l = flat_map g l.
Proof.
  induction l as [| x l IH]; intros H; [reflexivity |].
  cbn [flat_map]. rewrite (H x (or_introl eq_refl)), IH; [reflexivity |].
  intros y Hy. apply H. now right.
Qed.

Lemma dumpCell_faults a :
  StartAddr B <= a ->
  Z.of_nat (List.length (getContent B)) <= offset B a ->
  dumpCell B a [] =
  Fault (OutOfBounds (offset B a) (List.length (getContent B))).
Proof.
  intros Hge Hoff. unfold dumpCell, bind, when, offset in *.
  destruct (Z.ltb_spec a (StartAddr B)); [lia |].
  assert (Hn : nth_error (getContent B)
                 (Z.to_nat (U64.wrap (a - StartAddr B))) = None)
    by (apply nth_error_None; lia).
  unfold read. destruct (a mod LineWidth =? 0); simpl; now rewrite Hn.
Qed.

(** The loop stops at the first read that is out of range. *)
Lemma dumpLoop_faults k : forall n CurAddr,
  U64.fits CurAddr ->
  U64.wrap (EndAddr B - CurAddr) = Z.of_nat n ->
  (k < n)%nat ->
  (forall a, In a (running CurAddr k) -> StartAddr B <= a -> in_bounds B a) ->
  StartAddr B <= U64.wrap (CurAddr + Z.of_nat k) ->
  Z.of_nat (List.length (getContent B)) <=
    offset B (U64.wrap (CurAddr + Z.of_nat k)) ->
  dumpLoop n B CurAddr [] =
  Fault (OutOfBounds (offset B (U64.wrap (CurAddr + Z.of_nat k)))
                     (List.length (getContent B))).
Proof.
  induction k as [| k IH]; intros n CurAddr Hfit Hdist Hk Hin Hge Hoff;
    (destruct n as [| n]; [lia |]).
  all: assert (Hne : (CurAddr =? EndAddr B) = false)
    by (apply Z.eqb_neq; intros ->; rewrite Z.sub_diag in Hdist;
        unfold U64.wrap in Hdist; rewrite Zmod_0_l in Hdist; lia).
  all: cbn [dumpLoop]; rewrite Hne.
  - rewrite Z.add_0_r, (wrap_small _ Hfit) in *.
    unfold bind. now rewrite dumpCell_faults.
  - rewrite (bind_run _ _ tt (line_at B CurAddr)).
    + replace (U64.wrap (CurAddr + Z.of_nat (S k)))
        with (U64.wrap (U64.wrap (CurAddr + 1) + Z.of_nat k)) in *
        by (unfold U64.wrap; rewrite Zplus_mod_idemp_l; f_equal; lia).
      rewrite (IH n (U64.wrap (CurAddr + 1))); auto using wrap_fits.
      * now apply distance_step.
      * lia.
      * intros a Ha. apply Hin. now right.
    + apply dumpCell_run. apply Hin. now left.
    + apply appending_dumpLoop.
Qed.

End BufferAndSize.

(** X5.  The loop reads the first [getSize] bytes of the buffer and no
    others: when the buffer is at least as long as the declared size, the
    block is rendered without fault and exactly as if the buffer had been
    cut to [getSize] bytes. *)
Theorem X5_bytes_beyond_size_unread B s :
  valid_block B -> isZeroFill B = false ->
  getSize B <= Z.of_nat (List.length (getContent B)) ->
  printBlock B s =
    printBlock
      (with_content B (firstn (Z.to_nat (getSize B)) (getContent B))) s /\
  exists out, printBlock B s = Done (tt, s ++ out).
Proof.
  intros HB Hz Hlen.
  set (B' := with_content B (firstn (Z.to_nat (getSize B)) (getContent B))).
  assert (Hs : 0 <= getSize B) by (destruct HB as [_ Hs]; apply Hs).
  assert (Hrun : printBlock B [] =
     Done (tt, [BlockLine (getAddress B)] ++
               flat_map (line_at B) (running_addresses B) ++
               boundary_break B ++ [LineBreak])).
  { apply printBlock_dump; auto. intros a Hin Hge.
    pose proof (running_offset_below_size B a HB Hin Hge).
    unfold in_bounds. lia. }
  assert (Hrun' : printBlock B' [] =
     Done (tt, [BlockLine (getAddress B)] ++
               flat_map (line_at B') (running_addresses B) ++
               boundary_break B ++ [LineBreak])).
  { apply (printBlock_run B'); auto.
    unfold content_sized, B'. cbn [getContent getSize with_content].
    rewrite length_firstn. lia. }
  assert (Hsame : flat_map (line_at B') (running_addresses B) =
                  flat_map (line_at B) (running_addresses B)).
  { apply flat_map_ext_in. intros a Hin.
    unfold line_at, cell_at. f_equal. f_equal.
    change (StartAddr B') with (StartAddr B).
    change (offset B' a) with (offset B a).
    destruct (Z.ltb_spec a (StartAddr B)) as [Hlt | Hge]; [reflexivity |].
    pose proof (running_offset_below_size B a HB Hin Hge) as Hoff.
    unfold B'. cbn [getContent with_content]. rewrite nth_firstn.
    destruct (Nat.ltb_spec (Z.to_nat (offset B a)) (Z.to_nat (getSize B)));
      [reflexivity | lia]. }
  rewrite (appending_printBlock B s), (appending_printBlock B' s).
  rewrite Hrun, Hrun', Hsame. split; [reflexivity |].
  eexists. reflexivity.
Qed.

Lemma X5_bytes_beyond_size_unread_witness :
  printBlock (mkBlock 4099 2 false [x41; x42; x43; x44]) [] =
  printBlock (mkBlock 4099 2 false [x41; x42]) [].
Proof.
  apply (X5_bytes_beyond_size_unread
           (mkBlock 4099 2 false [x41; x42; x43; x44]) []).
  - unfold valid_block, U64.fits, U64.modulus. simpl. lia.
  - reflexivity.
  - simpl. lia.
Defined.

(** X6.  The loop trusts the declared size.  When the buffer of a content
    block is shorter than [getSize] (and the block does not overflow the
    address space), the bytes of the buffer are read in order and the
    next read is the one just past its end, at the offset that equals
    the buffer's length: rendering stops there with a fault. *)
Theorem X6_short_buffer_faults B s :
  valid_block B -> isZeroFill B = false -> no_wrap B ->
  Z.of_nat (List.length (getContent B)) < getSize B ->
  printBlock B s =
  Fault (OutOfBounds (Z.of_nat (List.length (getContent B)))
                     (List.length (getContent B))).
Proof.
  intros HB Hz Hnw Hlen.
  pose proof (InitAddr_rounds_down B HB) as Hi.
  pose proof (InitAddr_fits B HB) as Hf.
  pose proof (iterations_no_wrap B HB Hnw) as Hn.
  set (len := List.length (getContent B)) in *.
  set (k := (Z.to_nat (getAddress B - InitAddr B) + len)%nat).
  assert (Hlast : U64.wrap (InitAddr B + Z.of_nat k) = getAddress B + Z.of_nat len).
  { destruct HB as [Ha Hs].
    unfold no_wrap, U64.fits, LineWidth in *.
    rewrite wrap_small; unfold U64.fits; lia. }
  assert (Hoff : offset B (getAddress B + Z.of_nat len) = Z.of_nat len).
  { unfold offset, StartAddr. replace (_ - _) with (Z.of_nat len) by lia.
    apply wrap_small. destruct HB as [Ha Hs]. unfold U64.fits in *. lia. }
  assert (Hloop : dumpLoop (iterations B) B (InitAddr B) [] =
                  Fault (OutOfBounds (Z.of_nat len) len)).
  { rewrite <- Hoff at 1. rewrite <- Hlast.
    apply dumpLoop_faults; auto using iterations_distance.
    - unfold LineWidth in *. lia.
    - intros a Hin Hge. rewrite running_span in Hin.
      + apply span_In in Hin. unfold in_bounds, offset, StartAddr in *.
        rewrite wrap_small; [fold len; unfold LineWidth in *; lia |].
        destruct HB as [Ha Hs]. unfold U64.fits in *.
        unfold LineWidth in *. lia.
      + apply Hf.
      + destruct HB as [Ha Hs].
        unfold no_wrap, U64.fits, LineWidth in *. lia.
    - rewrite Hlast. unfold StartAddr. lia.
    - rewrite Hlast, Hoff. fold len. lia. }
  rewrite (appending_printBlock B s). unfold printBlock. rewrite Hz.
  rewrite (bind_run _ _ tt [BlockLine (getAddress B)]); [| reflexivity |].
  - unfold bind at 1. rewrite Hloop. reflexivity.
  - apply appending_bind; [apply appending_dumpLoop | intros _].
    apply appending_bind; [apply appending_when, appending_emit | intros _].
    apply appending_emit.
Qed.

Lemma X6_short_buffer_faults_witness :
  printBlock (mkBlock 4099 5 false [x41; x42; x43]) [SectionLine "s"] =
  Fault (OutOfBounds 3 3).
Proof.
  apply (X6_short_buffer_faults (mkBlock 4099 5 false [x41; x42; x43])
                                [SectionLine "s"]).
  - unfold valid_block, U64.fits, U64.modulus. simpl. lia.
  - reflexivity.
  - unfold no_wrap, U64.modulus. simpl. lia.
  - simpl. lia.
Defined.

(** ** Reading the content back from a rendering *)

Section ReadBack.

Lemma bytes_of_app s1 s2 : bytes_of (s1 ++ s2) = bytes_of s1 ++ bytes_of s2.
Proof. apply flat_map_app. Qed.

Lemma bytes_of_flat_map {A} (f : A -> stream) (g : A -> list byte) l :
  (forall x, In x l -> bytes_of (f x) = g x) ->
  bytes_of (flat_map f l) = flat_map g l.
Proof.
  induction l as [| x l IH]; intros H; [reflexivity |].
  cbn [flat_map]. rewrite bytes_of_app, (H x (or_introl eq_refl)), IH;
    [reflexivity |].
  intros y Hy. apply H. now right.
Qed.

Lemma bytes_of_cells s : bytes_of (filter is_cell s) = bytes_of s.
Proof.
  unfold bytes_of. induction s as [| c s IH]; [reflexivity |].
  destruct c; cbn [filter is_cell is_byte_cell is_blank orb flat_map app];
    now rewrite ?IH.
Qed.

Lemma bytes_of_layout n l : bytes_of (repeat Blank n ++ map ByteCell l) = l.
Proof.
  rewrite bytes_of_app.
  replace (bytes_of (repeat Blank n)) with (@nil byte)
    by (induction n; simpl; auto).
  unfold bytes_of. induction l as [| b l IH]; [reflexivity |].
  cbn [map flat_map app] in *. now rewrite IH.
Qed.

Lemma bytes_of_block_dump B :
  block_fits B -> bytes_of (block_dump B) = shown_content B.
Proof.
  intros [[HB Hc] Hnw]. unfold block_dump, shown_content.
  destruct (isZeroFill B) eqn:Hz; [reflexivity |].
  rewrite <- bytes_of_cells.
  change (BlockLine (getAddress B) ::
          flat_map (line_at B) (running_addresses B) ++
          boundary_break B ++ [LineBreak])
    with ([BlockLine (getAddress B)] ++
          flat_map (line_at B) (running_addresses B) ++
          boundary_break B ++ [LineBreak]).
  rewrite cells_of_dump, cells_no_wrap by auto.
  apply bytes_of_layout.
Qed.

Lemma graph_fits_ok G : graph_fits G -> graph_ok G.
Proof.
  unfold graph_fits, graph_ok. intros H.
  eapply Forall_impl; [| exact H]. intros S HS.
  eapply Forall_impl; [| exact HS]. intros B HB. apply HB.
Qed.

End ReadBack.

(** X7.  Nothing of the content is lost or reordered in a rendering: on a
    graph whose content blocks do not overflow the address space, the
    bytes of the byte cells, read in the order they are written, are the
    contents of the content blocks in iteration order; zero-filled blocks
    add none. *)
Theorem X7_rendering_shows_all_content G Title :
  graph_fits G ->
  exists out,
    printLinkGraph G Title [] = Done (tt, out) /\
    bytes_of out =
    flat_map (fun S => flat_map (fun B => if isZeroFill B then []
                                          else getContent B) (blocks S))
             (sections G).
Proof.
  intros Hfit. eexists.
  split; [apply (printLinkGraph_graph_dump G Title []), graph_fits_ok, Hfit |].
  cbn [app bytes_of flat_map]. fold (bytes_of (graph_dump G)).
  unfold graph_dump.
  apply bytes_of_flat_map. intros S HS.
  pose proof (proj1 (Forall_forall _ _) Hfit S HS) as HSfit.
  unfold section_dump. cbn [bytes_of flat_map app].
  fold (bytes_of (flat_map block_dump (blocks S))).
  apply bytes_of_flat_map. intros B HB.
  apply bytes_of_block_dump.
  now apply (proj1 (Forall_forall _ _) HSfit).
Qed.

Lemma X7_rendering_shows_all_content_witness :
  exists out,
    printLinkGraph example_graph "T" [] = Done (tt, out) /\
    bytes_of out = [x41; x42; x43; x44; x45].
Proof.
  apply (X7_rendering_shows_all_content example_graph "T").
  repeat constructor;
    try (unfold U64.fits, U64.modulus; simpl; lia);
    try discriminate;
    try (intros _; reflexivity);
    try (intros _; unfold no_wrap, U64.modulus; simpl; lia).
Defined.
